(** * FireORM: a shallow embedding of the mapping and query-execution engine

    The development follows the Go sources of the repository:
    - the record adapter ([GetID], [SetIDField], [StructToMap]) works on Go
      values through [reflect]; the fragment of [reflect] it uses is
      modelled in the module [Reflect];
    - the orchestrator ([DB]) is a heap of [dbOptions] objects addressed by
      pointers, because the builder methods either allocate a new [DB] or
      return the receiver;
    - the document store is external: every call that reaches it is
      recorded in a log and answered by an oracle ([Store]) that may depend
      on the whole history of calls;
    - names are byte strings, as in Go; what the code does on ASCII names
      is computed, and what it does beyond ASCII follows the Unicode tables
      of the standard library ([Unicode]), over which the properties are
      stated. *)

From stdpp Require Import gmap strings list fin_maps.
From Stdlib Require Import ZArith Ascii String Lia.

Set Warnings "-register-all".

Local Open Scope Z_scope.
Local Open Scope string_scope.
Local Open Scope list_scope.
Local Open Scope stdpp_scope.

(** ** Outcomes of Go code: a value or a panic *)

Inductive res (A : Type) : Type :=
| Ret (a : A)
| Panic (msg : string).
Arguments Ret {A} a.
Arguments Panic {A} msg.

Definition res_bind {A B} (r : res A) (k : A -> res B) : res B :=
  match r with
  | Ret a => k a
  | Panic m => Panic m
  end.

Notation "'let?' x ':=' r 'in' k" := (res_bind r (fun x => k))
  (at level 10, x name, r at level 100, k at level 200).

(** ** Unicode, as Go's standard library knows it

    The code tests whether an identifier is exported and lower-cases a
    type name. On ASCII both are computed here as Go computes them. Beyond
    ASCII they depend on the Unicode tables of the standard library, which
    are taken as given: [IsUpperRune s] is [unicode.IsUpper] of the first
    rune of [s], for a string that starts with a byte outside ASCII, and
    [ToLowerUnicode s] is [strings.ToLower s], for a string that has a byte
    outside ASCII. *)
Class Unicode : Type := mkUnicode {
  IsUpperRune : string -> bool;
  ToLowerUnicode : string -> string
}.

Definition is_ascii (c : ascii) : bool := Nat.ltb (nat_of_ascii c) 128.

(** ** Go types and values seen through [reflect] *)

Module Reflect.

Inductive Kind := KInvalid | KBool | KInt | KString | KSlice | KPtr | KStruct.

Definition Kind_eqb (a b : Kind) : bool :=
  match a, b with
  | KInvalid, KInvalid | KBool, KBool | KInt, KInt | KString, KString
  | KSlice, KSlice | KPtr, KPtr | KStruct, KStruct => true
  | _, _ => false
  end.

(** A struct field as [reflect.StructField] shows it: its Go name, the
    value of its [firestore] tag ([Tag.Get "firestore"], empty when the
    tag is absent) and its type or value. *)
Record StructField (T : Type) : Type := mkField {
  Name : string;
  Tag : string;
  Content : T
}.
Arguments mkField {T} _ _ _.
Arguments Name {T} _.
Arguments Tag {T} _.
Arguments Content {T} _.

(** [collectionName] is the result of the type's [CollectionName() string]
    method when the type has one. *)
Inductive Ty : Type :=
| TBool
| TInt
| TString
| TSlice (elem : Ty)
| TPtr (elem : Ty)
| TStruct (name : string) (collectionName : option string)
          (fields : list (StructField Ty)).

Inductive Value : Type :=
| VBool (b : bool)
| VInt (z : Z)
| VString (s : string)
| VSlice (elem : Ty) (items : list Value)
| VNilPtr (elem : Ty)
| VPtr (target : Value)
| VStruct (name : string) (collectionName : option string)
          (fields : list (StructField Value)).

(** The dynamic type of a value. *)
Fixpoint TypeOfValue (v : Value) : Ty :=
  match v with
  | VBool _ => TBool
  | VInt _ => TInt
  | VString _ => TString
  | VSlice e _ => TSlice e
  | VNilPtr e => TPtr e
  | VPtr t => TPtr (TypeOfValue t)
  | VStruct n c fs =>
      TStruct n c (map (fun f => mkField (Name f) (Tag f) (TypeOfValue (Content f))) fs)
  end.

(** The zero value of a type, as [reflect.New] allocates it. *)
Fixpoint Zero (t : Ty) : Value :=
  match t with
  | TBool => VBool false
  | TInt => VInt 0
  | TString => VString ""
  | TSlice e => VSlice e []
  | TPtr e => VNilPtr e
  | TStruct n c fs =>
      VStruct n c (map (fun f => mkField (Name f) (Tag f) (Zero (Content f))) fs)
  end.

Definition TypeKind (t : Ty) : Kind :=
  match t with
  | TBool => KBool
  | TInt => KInt
  | TString => KString
  | TSlice _ => KSlice
  | TPtr _ => KPtr
  | TStruct _ _ _ => KStruct
  end.

(** [interface{}]: [None] is the nil interface. *)
Definition iface := option Value.

(** [reflect.Value]: the zero Value is [RInvalid]; [flagAddr] says the
    value is addressable (it was reached through a pointer), [flagRO] that
    it was reached through an unexported field. *)
Inductive rvalue : Type :=
| RInvalid
| RVal (v : Value) (flagAddr flagRO : bool).

Definition ValueOf (m : iface) : rvalue :=
  match m with
  | None => RInvalid
  | Some v => RVal v false false
  end.

Definition rKind (rv : rvalue) : Kind :=
  match rv with
  | RInvalid => KInvalid
  | RVal v _ _ => TypeKind (TypeOfValue v)
  end.

Definition IsValid (rv : rvalue) : bool :=
  match rv with RInvalid => false | RVal _ _ _ => true end.

(** [Value.Elem] on a pointer; it panics on the other kinds modelled. *)
Definition rElem (rv : rvalue) : res rvalue :=
  match rv with
  | RVal (VPtr t) _ ro => Ret (RVal t true ro)
  | RVal (VNilPtr _) _ _ => Ret RInvalid
  | _ => Panic "reflect: call of reflect.Value.Elem on non-pointer Value"
  end.

(** [Value.Type] panics on the zero Value. *)
Definition rType (rv : rvalue) : res Ty :=
  match rv with
  | RInvalid => Panic "reflect: call of reflect.Value.Type on zero Value"
  | RVal v _ _ => Ret (TypeOfValue v)
  end.

Definition is_upper (c : ascii) : bool :=
  let n := nat_of_ascii c in (Nat.leb 65 n && Nat.leb n 90)%bool.

Section Exported.

Context {U : Unicode}.

(** An identifier is exported when its first rune is an upper-case
    letter: A to Z when the identifier starts with an ASCII byte, and what
    the Unicode tables say otherwise. *)
Definition IsExported (name : string) : bool :=
  match name with
  | String c _ => if is_ascii c then is_upper c else IsUpperRune name
  | EmptyString => false
  end.

Fixpoint lookupField {T} (name : string) (fs : list (StructField T))
  : option (StructField T) :=
  match fs with
  | [] => None
  | f :: rest => if String.eqb (Name f) name then Some f else lookupField name rest
  end.

(** [Value.FieldByName] for structs without embedded fields; it panics
    when the receiver is not of kind Struct. *)
Definition FieldByName (rv : rvalue) (name : string) : res rvalue :=
  match rv with
  | RVal (VStruct _ _ fs) addr ro =>
      match lookupField name fs with
      | Some f => Ret (RVal (Content f) addr (ro || negb (IsExported (Name f))))
      | None => Ret RInvalid
      end
  | _ => Panic "reflect: call of reflect.Value.FieldByName on non-struct Value"
  end.

End Exported.

Definition CanSet (rv : rvalue) : bool :=
  match rv with
  | RVal _ addr ro => addr && negb ro
  | RInvalid => false
  end.

(** [Value.String] on a value of kind String. *)
Definition rString (rv : rvalue) : string :=
  match rv with
  | RVal (VString s) _ _ => s
  | _ => "<invalid Value>"
  end.

Fixpoint setField {T} (name : string) (x : T) (fs : list (StructField T))
  : list (StructField T) :=
  match fs with
  | [] => []
  | f :: rest =>
      if String.eqb (Name f) name
      then mkField (Name f) (Tag f) x :: rest
      else f :: setField name x rest
  end.

(** The effect of [field.SetString id] on the model the field was reached
    from: a settable field lives in the struct behind the pointer. *)
Definition storeField (model : iface) (name : string) (x : Value) : iface :=
  match model with
  | Some (VPtr (VStruct n c fs)) => Some (VPtr (VStruct n c (setField name x fs)))
  | _ => model
  end.

End Reflect.
Import Reflect.

(** ** Record adapter *)

Section RecordAdapter.

Context {U : Unicode}.

(** [GetID] (db.go): the "ID" field when it exists and is a string. *)
Definition GetID (model : iface) : res string :=
  let v := ValueOf model in
  let? v := (if Kind_eqb (rKind v) KPtr then rElem v else Ret v) in
  let? field := FieldByName v "ID" in
  if IsValid field && Kind_eqb (rKind field) KString
  then Ret (rString field)
  else Ret "".

(** [SetIDField]: the model after the call. *)
Definition SetIDField (model : iface) (id : string) : res iface :=
  let v := ValueOf model in
  let? v := (if Kind_eqb (rKind v) KPtr then rElem v else Ret v) in
  let? field := FieldByName v "ID" in
  if IsValid field && CanSet field && Kind_eqb (rKind field) KString
  then Ret (storeField model "ID" (VString id))
  else Ret model.

(** One iteration of the loop of [StructToMap]. *)
Definition structToMapStep (ro : bool) (data : gmap string Value)
    (f : StructField Value) : res (gmap string Value) :=
  let firestoreTag := Tag f in
  if String.eqb firestoreTag "" || String.eqb firestoreTag "-"
  then Ret data
  else if ro || negb (IsExported (Name f))
       then Panic "reflect.Value.Interface: cannot return value obtained from unexported field or method"
       else Ret (<[firestoreTag := Content f]> data).

Fixpoint structToMapLoop (ro : bool) (data : gmap string Value)
    (fs : list (StructField Value)) : res (gmap string Value) :=
  match fs with
  | [] => Ret data
  | f :: rest =>
      let? data' := structToMapStep ro data f in
      structToMapLoop ro data' rest
  end.

(** [StructToMap]: the map from [firestore] tag to field value. The Go
    function returns [(data, nil)] on every path that returns. *)
Definition StructToMap (model : iface) : res (gmap string Value) :=
  let v := ValueOf model in
  let? v := (if Kind_eqb (rKind v) KPtr then rElem v else Ret v) in
  let? t := rType v in
  match v with
  | RVal (VStruct _ _ fs) _ ro => structToMapLoop ro ∅ fs
  | _ => Panic "reflect: NumField of non-struct type"
  end.

End RecordAdapter.

(** ** The Firestore client library, as far as the repository uses it *)

Module Firestore.

Record DocumentRef : Type := mkRef {
  Path : string;   (* the collection the document lives in *)
  ID : string
}.

Record DocumentSnapshot : Type := mkDoc {
  Ref : DocumentRef;
  Data : gmap string Value
}.

(** [firestore.Update]. *)
Record Update : Type := mkUpdate {
  UPath : string;
  UValue : iface
}.

Inductive Direction := Asc | Desc.

(** A [firestore.Query] is built by chaining calls on a collection; the
    chain of calls is all the repository determines, so a query is its
    collection with the calls in the order they were made. *)
Inductive qop : Type :=
| OpWhere (field op : string) (value : iface)
| OpOrderBy (field : string) (dir : Direction)
| OpLimit (n : Z)
| OpStartAfter (doc : DocumentSnapshot).

Record Query : Type := mkQuery {
  Collection : string;
  Ops : list qop
}.

Definition chain (q : Query) (o : qop) : Query :=
  mkQuery (Collection q) (Ops q ++ [o]).

Definition Where (q : Query) (field op : string) (value : iface) : Query :=
  chain q (OpWhere field op value).
Definition OrderBy (q : Query) (field : string) (dir : Direction) : Query :=
  chain q (OpOrderBy field dir).
Definition Limit (q : Query) (n : Z) : Query := chain q (OpLimit n).
Definition StartAfter (q : Query) (doc : DocumentSnapshot) : Query :=
  chain q (OpStartAfter doc).

End Firestore.

(** Go's [error]: [None] is nil. *)
Definition error := option string.

(** The result of a loop run with a bound on its iterations. *)
Inductive fueled (A : Type) : Type :=
| OutOfFuel
| Finished (a : A).
Arguments OutOfFuel {A}.
Arguments Finished {A} a.

(** ** query.go *)

Definition QueryLimitMax : Z := 10000.
Definition QueryLimitUnlimited : Z := -1.

(** An [IValueProvider] is an object of the caller; it is known by its
    identity and its [GetValue] is answered by the environment. *)
Definition IValueProvider := nat.

Record WhereClause : Type := mkWhere {
  Field : string;
  Operator : string;
  WValue : iface;
  ValueProvider : option IValueProvider
}.

Record OrderClause : Type := mkOrder {
  OField : string;
  Direction : Firestore.Direction
}.

Record Query : Type := mkQuerySpec {
  Where : list WhereClause;
  OrderBy : list OrderClause;
  Limit : Z
}.

(** ** connection.go *)

Definition Client := nat.
Definition Transaction := nat.

Record Connection : Type := mkConnection {
  client : option Client;
  transaction : option Transaction
}.

Definition NewConnection (c : option Client) (tx : list (option Transaction))
  : Connection :=
  match tx with
  | Some t :: _ => mkConnection c (Some t)
  | _ => mkConnection c None
  end.

Definition HasTransaction (c : Connection) : bool :=
  match transaction c with Some _ => true | None => false end.

Definition HasClient (c : Connection) : bool :=
  match client c with Some _ => true | None => false end.

Definition Validate (c : Connection) : error :=
  if negb (HasClient c) then Some "firestore client is required" else None.

(** ** The environment: calls that leave the process *)

Inductive event : Type :=
| EvGetValue (p : IValueProvider)
| EvGetAll (q : Firestore.Query) (inTx : bool)
| EvNewDoc (collection : string)
| EvSet (ref : Firestore.DocumentRef) (data : gmap string Value) (inTx : bool)
| EvUpdate (ref : Firestore.DocumentRef) (updates : list Firestore.Update) (inTx : bool)
| EvCommit (writes : list (Firestore.DocumentRef * list Firestore.Update)).

(** The calls that write to the store. *)
Definition is_write (e : event) : bool :=
  match e with
  | EvSet _ _ _ | EvUpdate _ _ _ | EvCommit _ => true
  | EvGetValue _ | EvGetAll _ _ | EvNewDoc _ => false
  end.

(** The answers of the environment. Each answer may depend on every call
    made so far. [DataTo] is the library's decoder, which runs locally. *)
Record Store : Type := mkStore {
  GetValue : list event -> IValueProvider -> string + iface;
  GetAll : list event -> Firestore.Query -> bool -> string + list Firestore.DocumentSnapshot;
  NewDoc : list event -> string -> string;
  Set_ : list event -> Firestore.DocumentRef -> gmap string Value -> bool -> error;
  Update_ : list event -> Firestore.DocumentRef -> list Firestore.Update -> bool -> error;
  Commit : list event -> list (Firestore.DocumentRef * list Firestore.Update) -> error;
  DataTo : Firestore.DocumentSnapshot -> Value -> string + Value
}.

(** ** db.go: the orchestrator *)

Record dbOptions : Type := mkOptions {
  conn : option Connection;      (* an IConnection; [None] is the nil interface *)
  modelType : option Ty;
  modelVal : rvalue;
  updateBatchSize : Z
}.

(** A [*DB] is an address in the heap of [DB] objects. *)
Definition ptr := nat.

Record World : Type := mkWorld {
  heap : list dbOptions;
  log : list event
}.

Definition M (A : Type) : Type := World -> res A * World.

Definition ret {A} (a : A) : M A := fun w => (Ret a, w).

Definition bind {A B} (m : M A) (k : A -> M B) : M B :=
  fun w => match m w with
           | (Ret a, w') => k a w'
           | (Panic msg, w') => (Panic msg, w')
           end.

Notation "'let*' x ':=' m 'in' k" := (bind m (fun x => k))
  (at level 10, x name, m at level 100, k at level 200).
Notation "'let*' ' p ':=' m 'in' k" := (bind m (fun x => match x with p => k end))
  (at level 10, p pattern, m at level 100, k at level 200).

Definition panic {A} (msg : string) : M A := fun w => (Panic msg, w).

Definition lift {A} (r : res A) : M A := fun w => (r, w).

Definition deref (db : ptr) : M dbOptions :=
  fun w => match heap w !! db with
           | Some o => (Ret o, w)
           | None => (Panic "invalid memory address or nil pointer dereference", w)
           end.

Definition alloc (o : dbOptions) : M ptr :=
  fun w => (Ret (List.length (heap w)), mkWorld (heap w ++ [o]) (log w)).

Definition assign (db : ptr) (o : dbOptions) : M unit :=
  fun w => (Ret tt, mkWorld (<[db := o]> (heap w)) (log w)).

(** An external call: the environment answers from the history, and the
    call is appended to the history. *)
Definition call {A} (e : event) (answer : list event -> A) : M A :=
  fun w => (Ret (answer (log w)), mkWorld (heap w) (log w ++ [e])).

Definition with_conn (o : dbOptions) (c : option Connection) : dbOptions :=
  mkOptions c (modelType o) (modelVal o) (updateBatchSize o).

Definition with_batch (o : dbOptions) (size : Z) : dbOptions :=
  mkOptions (conn o) (modelType o) (modelVal o) size.

Definition with_model (o : dbOptions) (t : Ty) (v : rvalue) : dbOptions :=
  mkOptions (conn o) (Some t) v (updateBatchSize o).

Definition New (c : option Connection) : M ptr :=
  alloc (mkOptions c None RInvalid 100).

Definition GetConnection (db : ptr) : M (option Connection) :=
  let* o := deref db in ret (conn o).

Definition SetConnection (db : ptr) (c : option Connection) : M ptr :=
  let* o := deref db in
  let* _ := assign db (with_conn o c) in
  ret db.

Definition WithConnection (db : ptr) (connection : option Connection) : M ptr :=
  let* o := deref db in
  let* newInstance := alloc o in
  let* _ := SetConnection newInstance connection in
  ret newInstance.

Definition SetUpdateBatchSize (db : ptr) (size : Z) : M ptr :=
  let* o := deref db in
  let* newInstance := alloc o in
  let* o' := deref newInstance in
  let* _ := assign newInstance (with_batch o' size) in
  ret db.

Definition GetUpdateBatchSize (db : ptr) : M Z :=
  let* o := deref db in ret (updateBatchSize o).

Definition GetModelType (db : ptr) : M (option Ty) :=
  let* o := deref db in ret (modelType o).

Definition GetModelValue (db : ptr) : M rvalue :=
  let* o := deref db in ret (modelVal o).

(** A method call on the [IConnection] held by the orchestrator panics
    when the interface is nil. *)
Definition connection (db : ptr) : M Connection :=
  let* c := GetConnection db in
  match c with
  | Some c => ret c
  | None => panic "invalid memory address or nil pointer dereference"
  end.

Definition WithTransaction (db : ptr) (tx : option Transaction) : M ptr :=
  let* c := connection db in
  let newConnection := NewConnection (client c) [tx] in
  let* o := deref db in
  let* newInstance := alloc o in
  let* _ := SetConnection newInstance (Some newConnection) in
  ret newInstance.

(** [reflect.New t] as a [reflect.Value]. *)
Definition reflectNew (t : Ty) : rvalue := RVal (VPtr (Zero t)) false false.

Definition Model (db : ptr) (model : iface) : M ptr :=
  let v := ValueOf model in
  let* t := lift (rType v) in
  let t := match t with TPtr e => e | _ => t end in
  if negb (Kind_eqb (TypeKind t) KStruct)
  then panic "model must be a struct or pointer to a struct"
  else
    let* o := deref db in
    let* newInstance := alloc o in
    let* o' := deref newInstance in
    let* _ := assign newInstance (with_model o' t (reflectNew t)) in
    ret newInstance.

Definition lower (c : ascii) : ascii :=
  if is_upper c then ascii_of_nat (nat_of_ascii c + 32) else c.

Fixpoint isASCII (s : string) : bool :=
  match s with
  | EmptyString => true
  | String c rest => is_ascii c && isASCII rest
  end.

Fixpoint lowerASCII (s : string) : string :=
  match s with
  | EmptyString => EmptyString
  | String c rest => String (lower c) (lowerASCII rest)
  end.

Section CollectionNames.

Context {U : Unicode}.

(** [strings.ToLower]: on a string that is all ASCII the letters A to Z
    are lower-cased byte by byte; any other string goes through the
    Unicode tables. *)
Definition ToLower (s : string) : string :=
  if isASCII s then lowerASCII s else ToLowerUnicode s.

Definition TypeName (t : Ty) : string :=
  match t with
  | TStruct n _ _ => n
  | TBool => "bool"
  | TInt => "int"
  | TString => "string"
  | TSlice _ | TPtr _ => ""
  end.

(** [MethodByName "CollectionName"] on the model value, with the checks on
    the method's signature: the string the method returns, if any. The
    types modelled have no [CollectionName] method, or one of type
    [func() string]; a method whose result is of kind String without being
    of type [string], for which the type assertion of [CollectionName]
    fails, is not among them. *)
Definition collectionNameMethod (v : rvalue) : res (option string) :=
  match v with
  | RInvalid => Panic "reflect: call of reflect.Value.MethodByName on zero Value"
  | RVal (VPtr (VStruct _ c _)) _ _ => Ret c
  | RVal (VStruct _ c _) _ _ => Ret c
  | RVal _ _ _ => Ret None
  end.

Definition CollectionName (db : ptr) : M (string * error) :=
  let* t := GetModelType db in
  match t with
  | None => ret ("", Some "no model set")
  | Some t =>
      let* v := GetModelValue db in
      let* method := lift (collectionNameMethod v) in
      match method with
      | Some collectionName => ret (collectionName, None)
      | None => ret (ToLower (TypeName t) +:+ "s", None)
      end
  end.

End CollectionNames.

(** [GetConnection().GetClient().Collection(colName)]: the client library
    reads the client's project, so a nil client panics. *)
Definition collectionRef (db : ptr) (colName : string) : M string :=
  let* c := connection db in
  match client c with
  | Some _ => ret colName
  | None => panic "invalid memory address or nil pointer dereference"
  end.

Section Orchestrator.

Context {U : Unicode} (S : Store).

Fixpoint applyWhere (q : Firestore.Query) (ws : list WhereClause)
  : M (Firestore.Query * error) :=
  match ws with
  | [] => ret (q, None)
  | w :: rest =>
      match ValueProvider w with
      | Some p =>
          let* r := call (EvGetValue p) (fun h => GetValue S h p) in
          match r with
          | inl err =>
              ret (q, Some ("failed to get value for field " +:+ Field w +:+ ": " +:+ err))
          | inr v => applyWhere (Firestore.Where q (Field w) (Operator w) v) rest
          end
      | None => applyWhere (Firestore.Where q (Field w) (Operator w) (WValue w)) rest
      end
  end.

Definition applyOrderBy (q : Firestore.Query) (os : list OrderClause) : Firestore.Query :=
  fold_left (fun q o => Firestore.OrderBy q (OField o) (Direction o)) os q.

Definition applyLimit (q : Firestore.Query) (limit : Z) : Firestore.Query :=
  if Z.ltb 0 limit && negb (Z.eqb limit QueryLimitUnlimited)
  then Firestore.Limit q limit
  else q.

Fixpoint ApplyQueries (q : Firestore.Query) (queries : list Query)
  : M (Firestore.Query * error) :=
  match queries with
  | [] => ret (q, None)
  | qry :: rest =>
      let* '(q, err) := applyWhere q (Where qry) in
      match err with
      | Some e => ret (q, Some e)
      | None =>
          let q := applyOrderBy q (OrderBy qry) in
          let q := applyLimit q (Limit qry) in
          ApplyQueries q rest
      end
  end.

(** [Documents(q).GetAll()], inside the transaction when there is one. *)
Definition getAll (q : Firestore.Query) (inTx : bool)
  : M (string + list Firestore.DocumentSnapshot) :=
  call (EvGetAll q inTx) (fun h => GetAll S h q inTx).

(** *** FindAll *)

(** The loop of [FindAll] over the documents: every document is decoded
    into a fresh instance of the model and appended to [sliceVal]. *)
Fixpoint findAllAppend (t : Ty) (sliceVal : list Value)
    (docs : list Firestore.DocumentSnapshot) : res (string + list Value) :=
  match docs with
  | [] => Ret (inr sliceVal)
  | doc :: rest =>
      match DataTo S doc (Zero t) with
      | inl err => Ret (inl ("failed to parse document: " +:+ err))
      | inr decoded =>
          let? newInstance := SetIDField (Some (VPtr decoded)) (Firestore.ID (Firestore.Ref doc)) in
          let? elem := rElem (ValueOf newInstance) in
          match elem with
          | RVal e _ _ => findAllAppend t (sliceVal ++ [e]) rest
          | RInvalid => Panic "reflect: call of reflect.Append on zero Value"
          end
      end
  end.

Definition findAll (queries : list Query) (dest : iface) (dbInstance : ptr)
  : M (error * iface) :=
  let* mt := GetModelType dbInstance in
  match mt with
  | None => ret (Some "no model set, call db.Model(&Model{}) first", dest)
  | Some mt =>
      let* '(colName, err) := CollectionName dbInstance in
      match err with
      | Some e => ret (Some e, dest)
      | None =>
          let* col := collectionRef dbInstance colName in
          let q := Firestore.mkQuery col [] in
          let* '(q, err) :=
            match queries with
            | [] => ret (q, None)
            | _ => ApplyQueries q queries
            end in
          match err with
          | Some e => ret (Some e, dest)
          | None =>
              let* c := connection dbInstance in
              let* docs := getAll q (HasTransaction c) in
              match docs with
              | inl e => ret (Some e, dest)
              | inr docs =>
                  let rv := ValueOf dest in
                  let* target :=
                    (if Kind_eqb (rKind rv) KPtr then lift (rElem rv) else ret RInvalid) in
                  match target with
                  | RVal (VSlice e items) _ _ =>
                      let* r := lift (findAllAppend mt items docs) in
                      match r with
                      | inl e => ret (Some e, dest)
                      | inr sliceVal => ret (None, Some (VPtr (VSlice e sliceVal)))
                      end
                  | _ => ret (Some "dest must be a pointer to a slice", dest)
                  end
              end
          end
      end
  end.

(** [reflect.TypeOf(dest).Elem()]: it panics on the nil interface and on
    the kinds that have no element type. *)
Definition typeElem (dest : iface) : res Ty :=
  match dest with
  | None => Panic "invalid memory address or nil pointer dereference"
  | Some v =>
      match TypeOfValue v with
      | TPtr e | TSlice e => Ret e
      | _ => Panic "reflect: Elem of invalid type"
      end
  end.

Definition FindAll (db : ptr) (queries : list Query) (dest : iface)
  : M (error * iface) :=
  let* destType := lift (typeElem dest) in
  match destType with
  | TSlice elemType =>
      if negb (Kind_eqb (TypeKind elemType) KStruct)
      then ret (Some "dest slice element must be a struct", dest)
      else
        let elemTypeInstance := Some (VPtr (Zero elemType)) in
        let* dbInstance := Model db elemTypeInstance in
        findAll queries dest dbInstance
  | _ => ret (Some "dest must be a pointer to a slice", dest)
  end.

(** *** Save *)

(** The loop of [Save] over [fieldsToSave]. *)
Fixpoint saveUpdates (data : gmap string Value) (fieldsToSave : list string)
    (updates : list Firestore.Update) : string + list Firestore.Update :=
  match fieldsToSave with
  | [] => inr updates
  | field :: rest =>
      match data !! field with
      | None => inl ("field " +:+ field +:+ " not found in model data")
      | Some value =>
          saveUpdates data rest (updates ++ [Firestore.mkUpdate field (Some value)])
      end
  end.

Definition save (model : iface) (fieldsToSave : list string) (dbInstance : ptr)
  : M (error * iface) :=
  let* mt := GetModelType dbInstance in
  match mt with
  | None => ret (Some "no model set, call db.Model(&Model{}) first", model)
  | Some _ =>
      let* '(colName, err) := CollectionName dbInstance in
      match err with
      | Some e => ret (Some e, model)
      | None =>
          let* id := lift (GetID model) in
          let* col := collectionRef dbInstance colName in
          let docRef := Firestore.mkRef col id in
          let* data := lift (StructToMap model) in
          let* '(docRef, model, id) :=
            (if String.eqb id "" && Nat.eqb (List.length fieldsToSave) 0
             then
               let* col := collectionRef dbInstance colName in
               let* newID := call (EvNewDoc col) (fun h => NewDoc S h col) in
               let docRef := Firestore.mkRef col newID in
               let* model := lift (SetIDField model (Firestore.ID docRef)) in
               ret (docRef, model, Firestore.ID docRef)
             else ret (docRef, model, id)) in
          if Nat.ltb 0 (List.length fieldsToSave) && String.eqb id ""
          then ret (Some "cannot update fields on a record with no ID", model)
          else if Nat.eqb (List.length fieldsToSave) 0
          then
            let* c := connection dbInstance in
            let* err := call (EvSet docRef data (HasTransaction c))
                             (fun h => Set_ S h docRef data (HasTransaction c)) in
            ret (err, model)
          else
            match saveUpdates data fieldsToSave [] with
            | inl e => ret (Some e, model)
            | inr updates =>
                let* c := connection dbInstance in
                let* err := call (EvUpdate docRef updates (HasTransaction c))
                                 (fun h => Update_ S h docRef updates (HasTransaction c)) in
                ret (err, model)
            end
      end
  end.

Definition Save (db : ptr) (model : iface) (fieldsToSave : list string)
  : M (error * iface) :=
  let* dbInstance := Model db model in
  save model fieldsToSave dbInstance.

(** *** Update *)

Fixpoint last_doc (docs : list Firestore.DocumentSnapshot)
  : option Firestore.DocumentSnapshot :=
  match docs with
  | [] => None
  | [d] => Some d
  | _ :: rest => last_doc rest
  end.

(** The [for] loop of [Update]; [fuel] bounds the number of iterations. *)
Fixpoint updateLoop (fuel : nat) (dbInstance : ptr) (q : Firestore.Query)
    (updates : list Firestore.Update) (lastDoc : option Firestore.DocumentSnapshot)
  : M (fueled error) :=
  match fuel with
  | O => ret OutOfFuel
  | Datatypes.S fuel =>
      let query := match lastDoc with
                   | Some d => Firestore.StartAfter q d
                   | None => q
                   end in
      let* size := GetUpdateBatchSize dbInstance in
      let* docs := getAll (Firestore.Limit query size) false in
      match docs with
      | inl err => ret (Finished (Some ("failed to retrieve documents: " +:+ err)))
      | inr [] => ret (Finished None)
      | inr docs =>
          let* _ := connection dbInstance in   (* GetConnection().GetClient().Batch() *)
          let batch := map (fun doc => (Firestore.Ref doc, updates)) docs in
          let* c := connection dbInstance in
          if HasTransaction c
          then ret (Finished (Some "transactional batch updates are not supported"))
          else
            let* err := call (EvCommit batch) (fun h => Commit S h batch) in
            match err with
            | Some e => ret (Finished (Some ("batch commit failed: " +:+ e)))
            | None => updateLoop fuel dbInstance q updates (last_doc docs)
            end
      end
  end.

Definition update (fuel : nat) (model : iface) (updates : list Firestore.Update)
    (where_ : list (list Query)) (dbInstance : ptr) : M (fueled error) :=
  let* mt := GetModelType dbInstance in
  match mt with
  | None => ret (Finished (Some "no model set, call db.Model(&Model{}) first"))
  | Some _ =>
      let* '(colName, err) := CollectionName dbInstance in
      match err with
      | Some e => ret (Finished (Some e))
      | None =>
          let* id := lift (GetID model) in
          if negb (String.eqb id "")
          then
            let* col := collectionRef dbInstance colName in
            let docRef := Firestore.mkRef col id in
            let* c := connection dbInstance in
            let* err := call (EvUpdate docRef updates (HasTransaction c))
                             (fun h => Update_ S h docRef updates (HasTransaction c)) in
            ret (Finished err)
          else
            match where_ with
            | [] => ret (Finished (Some "either ID or query conditions must be provided"))
            | [] :: _ => ret (Finished (Some "either ID or query conditions must be provided"))
            | where0 :: _ =>
                let* col := collectionRef dbInstance colName in
                let q := Firestore.mkQuery col [] in
                let* '(q, err) := ApplyQueries q where0 in
                match err with
                | Some e => ret (Finished (Some e))
                | None => updateLoop fuel dbInstance q updates None
                end
            end
      end
  end.

Definition Update (fuel : nat) (db : ptr) (model : iface)
    (updates : list Firestore.Update) (where_ : list (list Query))
  : M (fueled error) :=
  let* dbInstance := Model db model in
  update fuel model updates where_ dbInstance.

End Orchestrator.

(** ** db.go: FindOne *)

Section FindOne.

Context {U : Unicode} (S : Store).

(** [doc.DataTo(dest)] on the interface value [dest]: the library decodes
    into the struct behind a pointer that is not nil, and refuses every
    other destination. *)
Definition dataToDest (doc : Firestore.DocumentSnapshot) (dest : iface)
  : string + iface :=
  match dest with
  | Some (VPtr v) =>
      match DataTo S doc v with
      | inl e => inl e
      | inr v' => inr (Some (VPtr v'))
      end
  | _ => inl "firestore: nil or not a pointer"
  end.

Definition findOne (queries : list Query) (dest : iface) (dbInstance : ptr)
  : M (error * iface) :=
  let* mt := GetModelType dbInstance in
  match mt with
  | None => ret (Some "no model set, call db.Model(&Model{}) first", dest)
  | Some _ =>
      let* '(colName, err) := CollectionName dbInstance in
      match err with
      | Some e => ret (Some e, dest)
      | None =>
          let* col := collectionRef dbInstance colName in
          let q := Firestore.mkQuery col [] in
          let* '(q, err) := ApplyQueries S q queries in
          match err with
          | Some e => ret (Some e, dest)
          | None =>
              let q := Firestore.Limit q 1 in
              let* c := connection dbInstance in
              let* docs := getAll S q (HasTransaction c) in
              match docs with
              | inl e => ret (Some e, dest)
              | inr [] => ret (Some "no document found", dest)
              | inr (doc :: _) =>
                  match dataToDest doc dest with
                  | inl e => ret (Some ("failed to parse document: " +:+ e), dest)
                  | inr dest =>
                      let* dest := lift (SetIDField dest (Firestore.ID (Firestore.Ref doc))) in
                      ret (None, dest)
                  end
              end
          end
      end
  end.

Definition FindOne (db : ptr) (queries : list Query) (dest : iface)
  : M (error * iface) :=
  let* dbInstance := Model db dest in
  findOne queries dest dbInstance.

End FindOne.

(** ** db.go: GetByID and Delete *)

(** The calls on single documents that [GetByID] and [Delete] make. *)
Inductive docEvent : Type :=
| EvGet (ref : Firestore.DocumentRef) (inTx : bool)
| EvDelete (ref : Firestore.DocumentRef) (inTx : bool).

(** The answers of the store to these calls; an answer may depend on the
    calls made so far. [DocGet] answers an error for a document that does
    not exist, as [DocumentRef.Get] and [Transaction.Get] do. *)
Record DocStore : Type := mkDocStore {
  DocGet : list event -> list docEvent -> Firestore.DocumentRef -> bool
           -> string + Firestore.DocumentSnapshot;
  DocDelete : list event -> list docEvent -> Firestore.DocumentRef -> bool -> error
}.

Record DocWorld : Type := mkDocWorld {
  world : World;
  docLog : list docEvent
}.

Definition D (A : Type) : Type := DocWorld -> res A * DocWorld.

Definition dret {A} (a : A) : D A := fun w => (Ret a, w).

Definition dbind {A B} (m : D A) (k : A -> D B) : D B :=
  fun w => match m w with
           | (Ret a, w') => k a w'
           | (Panic msg, w') => (Panic msg, w')
           end.

Notation "'let+' x ':=' m 'in' k" := (dbind m (fun x => k))
  (at level 10, x name, m at level 100, k at level 200).
Notation "'let+' ' p ':=' m 'in' k" := (dbind m (fun x => match x with p => k end))
  (at level 10, p pattern, m at level 100, k at level 200).

(** A computation of the orchestrator, run in the larger world. *)
Definition inWorld {A} (m : M A) : D A :=
  fun w => match m (world w) with
           | (r, w') => (r, mkDocWorld w' (docLog w))
           end.

Definition docCall {A} (e : docEvent) (answer : list event -> list docEvent -> A) : D A :=
  fun w => (Ret (answer (log (world w)) (docLog w)),
            mkDocWorld (world w) (docLog w ++ [e])).

(** A deferred [recover()] in a function whose result is not named: a
    panic in [body] ends the function with the zero value of its result,
    the nil error. What [body] did before the panic stays done. *)
Definition recovered (model : iface) (body : D (error * iface)) : D (error * iface) :=
  fun w => match body w with
           | (Panic _, w') => (Ret (None, model), w')
           | (Ret r, w') => (Ret r, w')
           end.

Section Documents.

Context {U : Unicode} (S : Store) (DS : DocStore).

(** [doc.DataTo(&model)], on a pointer to the interface variable: the
    library decodes into the struct behind a pointer held by the
    interface; otherwise it stores a fresh value in the variable, which is
    local to [GetByID], and the caller's record stays as it is. *)
Definition dataToModel (doc : Firestore.DocumentSnapshot) (model : iface)
  : string + iface :=
  match model with
  | Some (VPtr v) =>
      match DataTo S doc v with
      | inl e => inl e
      | inr v' => inr (Some (VPtr v'))
      end
  | _ => inr model
  end.

Definition getByIdFunc (model : iface) (dbInstance : ptr) : D (error * iface) :=
  let+ mt := inWorld (GetModelType dbInstance) in
  match mt with
  | None => dret (Some "no model set, call db.Model(&Model{}) first", model)
  | Some _ =>
      let+ '(colName, err) := inWorld (CollectionName dbInstance) in
      match err with
      | Some e => dret (Some e, model)
      | None =>
          recovered model
            (let+ id := inWorld (lift (GetID model)) in
             if String.eqb id ""
             then dret (Some "ID cannot be empty", model)
             else
               let+ col := inWorld (collectionRef dbInstance colName) in
               let docRef := Firestore.mkRef col id in
               let+ c := inWorld (connection dbInstance) in
               let+ r := docCall (EvGet docRef (HasTransaction c))
                           (fun h dh => DocGet DS h dh docRef (HasTransaction c)) in
               match r with
               | inl e => dret (Some e, model)
               | inr doc =>
                   match dataToModel doc model with
                   | inl e => dret (Some ("failed to parse document: " +:+ e), model)
                   | inr model => dret (None, model)
                   end
               end)
      end
  end.

Definition GetByID (db : ptr) (model : iface) : D (error * iface) :=
  let+ dbInstance := inWorld (Model db model) in
  getByIdFunc model dbInstance.

(** [Delete] works on the receiver: it does not bind the model. *)
Definition Delete (db : ptr) (model : iface) : D error :=
  let+ mt := inWorld (GetModelType db) in
  match mt with
  | None => dret (Some "no model set, call db.Model(&Model{}) first")
  | Some _ =>
      let+ '(colName, err) := inWorld (CollectionName db) in
      match err with
      | Some e => dret (Some e)
      | None =>
          let+ id := inWorld (lift (GetID model)) in
          if String.eqb id ""
          then dret (Some "ID cannot be empty for delete")
          else
            let+ col := inWorld (collectionRef db colName) in
            let docRef := Firestore.mkRef col id in
            let+ c := inWorld (connection db) in
            docCall (EvDelete docRef (HasTransaction c))
              (fun h dh => DocDelete DS h dh docRef (HasTransaction c))
      end
  end.

End Documents.

(** * Unicode tables for the examples

    The tables restricted to Latin-1, on well-formed UTF-8: the upper-case
    letters beyond ASCII are U+00C0 to U+00DE without the multiplication
    sign U+00D7, encoded as byte 195 followed by a byte from 128 to 158,
    and the lower-case letter of each is 32 code points further. Runes
    beyond U+00FF are left as they are. *)

Definition is_upper_latin1 (c d : ascii) : bool :=
  let n := nat_of_ascii d in
  Nat.eqb (nat_of_ascii c) 195 && Nat.leb 128 n && Nat.leb n 158 && negb (Nat.eqb n 151).

Definition IsUpperLatin1 (s : string) : bool :=
  match s with
  | String c (String d _) => is_upper_latin1 c d
  | _ => false
  end.

Fixpoint ToLowerLatin1 (s : string) : string :=
  match s with
  | EmptyString => EmptyString
  | String c rest =>
      match rest with
      | String d rest' =>
          if is_upper_latin1 c d
          then String c (String (ascii_of_nat (nat_of_ascii d + 32)) (ToLowerLatin1 rest'))
          else String (lower c) (ToLowerLatin1 rest)
      | EmptyString => String (lower c) EmptyString
      end
  end.

Definition latin1 : Unicode :=
  {| IsUpperRune := IsUpperLatin1; ToLowerUnicode := ToLowerLatin1 |}.

(** * Vocabulary of the properties *)

Section Properties.

Context {U : Unicode}.

(** ** Sample records *)

(** [User] of the repository's tests: the identifier is not mapped. *)
Definition user (id name email : string) (age : Z) : Value :=
  VStruct "User" None
    [ mkField "ID" "-" (VString id);
      mkField "Name" "name" (VString name);
      mkField "Email" "email" (VString email);
      mkField "Age" "age" (VInt age) ].

(** [Example] of the repository's example program: the identifier is
    mapped to the document field "id". *)
Definition example (id name email : string) : Value :=
  VStruct "Example" None
    [ mkField "ID" "id" (VString id);
      mkField "Name" "name" (VString name);
      mkField "Email" "email" (VString email) ].

(** A record type without an identifier field. *)
Definition point (x y : Z) : Value :=
  VStruct "Point" None
    [ mkField "X" "x" (VInt x); mkField "Y" "y" (VInt y) ].

(** Two fields mapped to the same document field. *)
Definition clash (a b : Z) : Value :=
  VStruct "Clash" None
    [ mkField "A" "v" (VInt a); mkField "B" "v" (VInt b) ].

Definition clash_swapped (a b : Z) : Value :=
  VStruct "Clash" None
    [ mkField "B" "v" (VInt b); mkField "A" "v" (VInt a) ].

(** ** The field mapping, in the words of the specification *)

(** A field is mapped when its annotation is neither empty nor "-". *)
Definition mapped (f : StructField Value) : bool :=
  negb (String.eqb (Tag f) "" || String.eqb (Tag f) "-").

(** The fields of a record passed by value or by pointer. *)
Definition recordFields (model : iface) : option (list (StructField Value)) :=
  match model with
  | Some (VStruct _ _ fs) | Some (VPtr (VStruct _ _ fs)) => Some fs
  | _ => None
  end.

Definition mappedTags (fs : list (StructField Value)) : list string :=
  map Tag (filter (fun f => mapped f = true) fs).

(** The entry of a document field after [StructToMap], for a result read
    through [res]. *)
Definition entry (r : res (gmap string Value)) (k : string) : res (option Value) :=
  let? data := r in Ret (data !! k).

(** ** Models *)

(** The struct type behind a model that is a struct or a pointer to a
    struct. *)
Definition structType (model : iface) : option Ty :=
  match model with
  | Some (VStruct n c fs) => Some (TypeOfValue (VStruct n c fs))
  | Some (VPtr (VStruct n c fs)) => Some (TypeOfValue (VStruct n c fs))
  | Some (VNilPtr (TStruct n c fs)) => Some (TStruct n c fs)
  | _ => None
  end.

Definition is_panic {A} (r : res A) : Prop :=
  match r with Panic _ => True | Ret _ => False end.

(** ** Query specifications as lists of clauses *)

(** The clauses of a query specification, one by one. *)
Inductive clause : Type :=
| CFilter (w : WhereClause)
| COrder (o : OrderClause)
| CLimit (n : Z).

(** The clauses of one specification in the order the specification asks
    for: the filters as listed, then the order clauses as listed, then the
    limit when it is greater than zero and not the unlimited sentinel. *)
Definition spec_clauses (qry : Query) : list clause :=
  map CFilter (Where qry) ++ map COrder (OrderBy qry)
  ++ (if decide (0 < Limit qry /\ Limit qry <> QueryLimitUnlimited)
      then [CLimit (Limit qry)] else []).

(** The call a clause makes on the query when its value is a literal. *)
Definition clause_op (c : clause) : Firestore.qop :=
  match c with
  | CFilter w => Firestore.OpWhere (Field w) (Operator w) (WValue w)
  | COrder o => Firestore.OpOrderBy (OField o) (Direction o)
  | CLimit n => Firestore.OpLimit n
  end.

Definition literal (c : clause) : Prop :=
  match c with
  | CFilter w => ValueProvider w = None
  | _ => True
  end.

(** Applying a list of clauses one after the other: a filter with a value
    provider resolves it first, and a failed resolution stops the
    application with an error that names the filter's field. *)
Fixpoint applyClauses (S : Store) (q : Firestore.Query) (cs : list clause)
  : M (Firestore.Query * error) :=
  match cs with
  | [] => ret (q, None)
  | CFilter w :: rest =>
      match ValueProvider w with
      | Some p =>
          let* r := call (EvGetValue p) (fun h => GetValue S h p) in
          match r with
          | inl err =>
              ret (q, Some ("failed to get value for field " +:+ Field w +:+ ": " +:+ err))
          | inr v => applyClauses S (Firestore.Where q (Field w) (Operator w) v) rest
          end
      | None => applyClauses S (Firestore.Where q (Field w) (Operator w) (WValue w)) rest
      end
  | COrder o :: rest => applyClauses S (Firestore.OrderBy q (OField o) (Direction o)) rest
  | CLimit n :: rest => applyClauses S (Firestore.Limit q n) rest
  end.

(** ** A sample environment *)

(** The documents after the cursor [c] in a result list. *)
Fixpoint after (c : string) (docs : list Firestore.DocumentSnapshot)
  : list Firestore.DocumentSnapshot :=
  match docs with
  | [] => []
  | d :: rest =>
      if String.eqb (Firestore.ID (Firestore.Ref d)) c then rest else after c rest
  end.

(** The page of a result list that a chain of calls selects: the last
    cursor and the last limit of the chain count. *)
Fixpoint page (ops : list Firestore.qop) (docs : list Firestore.DocumentSnapshot)
    (limit : option Z) : list Firestore.DocumentSnapshot :=
  match ops with
  | [] => match limit with
          | Some n => take (Z.to_nat n) docs
          | None => docs
          end
  | Firestore.OpStartAfter d :: rest =>
      page rest (after (Firestore.ID (Firestore.Ref d)) docs) limit
  | Firestore.OpLimit n :: rest => page rest docs (Some n)
  | _ :: rest => page rest docs limit
  end.

(** Decoding a document into a struct: every mapped field the document
    has is copied. *)
Definition decode (doc : Firestore.DocumentSnapshot) (v : Value) : Value :=
  match v with
  | VStruct n c fs =>
      VStruct n c
        (map (fun f => match Firestore.Data doc !! Tag f with
                       | Some x => mkField (Name f) (Tag f) x
                       | None => f
                       end) fs)
  | _ => v
  end.

(** A store whose queries always answer from the same ordered result list
    [docs], whatever has been written, and whose writes succeed. The value
    provider 0 answers 5, every other provider fails. *)
Definition stable_store (docs : list Firestore.DocumentSnapshot) : Store :=
  mkStore
    (fun _ p => if Nat.eqb p 0 then inr (Some (VInt 5)) else inl "provider failed")
    (fun _ q _ => inr (page (Firestore.Ops q) docs None))
    (fun _ _ => "generated-id")
    (fun _ _ _ _ => None)
    (fun _ _ _ _ => None)
    (fun _ _ => None)
    (fun doc v => inr (decode doc v)).

Definition user_doc (id name : string) (age : Z) : Firestore.DocumentSnapshot :=
  Firestore.mkDoc (Firestore.mkRef "users" id)
    (<["name" := VString name]> (<["age" := VInt age]> ∅)).

(** Two specifications; the second filter of the second one has a provider
    that fails. *)
Definition sample_queries : list Query :=
  [ mkQuerySpec [mkWhere "age" ">" (Some (VInt 30)) None;
                 mkWhere "score" ">=" None (Some 0%nat)]
                [mkOrder "name" Firestore.Asc] 10;
    mkQuerySpec [mkWhere "cursor" ">" None (Some 7%nat);
                 mkWhere "name" "==" (Some (VString "Ann")) None]
                [mkOrder "age" Firestore.Desc] QueryLimitUnlimited ].

(** ** The orchestrator bound to a model *)

(** The collection name of a struct type: the result of its
    [CollectionName] method, or the lower-cased type name with "s". *)
Definition collectionOf (t : Ty) : string :=
  match t with
  | TStruct n (Some collectionName) _ => collectionName
  | _ => ToLower (TypeName t) +:+ "s"
  end.

(** The orchestrator that [Model] allocates for a record, and the world
    after the allocation. *)
Definition bound (o : dbOptions) (t : Ty) : dbOptions := with_model o t (reflectNew t).

Definition after_Model (w : World) (o : dbOptions) (t : Ty) : World :=
  mkWorld (heap w ++ [bound o t]) (log w).

(** A world with one orchestrator, connected and without a transaction. *)
Definition connected : dbOptions :=
  mkOptions (Some (mkConnection (Some 1%nat) None)) None RInvalid 100.

Definition in_transaction : dbOptions :=
  mkOptions (Some (mkConnection (Some 1%nat) (Some 1%nat))) None RInvalid 100.

(** A document decoded into a fresh instance of the model type, with its
    identifier injected. *)
Definition decoded_as (S : Store) (t : Ty) (doc : Firestore.DocumentSnapshot)
    (v : Value) : Prop :=
  exists decoded,
    DataTo S doc (Zero t) = inr decoded
    /\ SetIDField (Some (VPtr decoded)) (Firestore.ID (Firestore.Ref doc))
       = Ret (Some (VPtr v)).

Definition userT : Ty := TypeOfValue (user "" "" "" 0).

(** ** Pages of a stable result list *)

Definition docID (d : Firestore.DocumentSnapshot) : string :=
  Firestore.ID (Firestore.Ref d).

(** What a page query positioned after [lastDoc] ranges over, in a result
    list whose order does not change. *)
Definition cursor_rest (matching : list Firestore.DocumentSnapshot)
    (lastDoc : option Firestore.DocumentSnapshot) : list Firestore.DocumentSnapshot :=
  match lastDoc with
  | None => matching
  | Some d => after (docID d) matching
  end.

Definition positioned (q : Firestore.Query) (lastDoc : option Firestore.DocumentSnapshot)
  : Firestore.Query :=
  match lastDoc with
  | Some d => Firestore.StartAfter q d
  | None => q
  end.

(** The result set of [q] is [matching], in a stable order: whatever has
    been written so far, a page query of size [B], from the start or
    positioned after one of the documents, answers the next [B] documents
    of [matching]. *)
Definition stable_results (S : Store) (q : Firestore.Query) (B : Z)
    (matching : list Firestore.DocumentSnapshot) : Prop :=
  forall h lastDoc,
    (forall d, lastDoc = Some d -> d ∈ matching) ->
    GetAll S h (Firestore.Limit (positioned q lastDoc) B) false
    = inr (take (Z.to_nat B) (cursor_rest matching lastDoc)).

(** The batches committed by a sequence of external calls. *)
Fixpoint commits (evs : list event)
  : list (list (Firestore.DocumentRef * list Firestore.Update)) :=
  match evs with
  | [] => []
  | EvCommit b :: rest => b :: commits rest
  | _ :: rest => commits rest
  end.

Definition ceil_div (n b : nat) : nat := Nat.div (n + b - 1) b.

Definition page_query (o : dbOptions) (q : Firestore.Query)
    (lastDoc : option Firestore.DocumentSnapshot) : Firestore.Query :=
  Firestore.Limit (positioned q lastDoc) (updateBatchSize o).

Definition batch_of (updates : list Firestore.Update)
    (docs : list Firestore.DocumentSnapshot)
  : list (Firestore.DocumentRef * list Firestore.Update) :=
  map (fun doc => (Firestore.Ref doc, updates)) docs.

(** Three matching documents, paged by two. *)
Definition three_docs : list Firestore.DocumentSnapshot :=
  [user_doc "d1" "Ann" 31; user_doc "d2" "Bob" 40; user_doc "d3" "Cyd" 52].

Definition batch_of_two : dbOptions :=
  mkOptions (Some (mkConnection (Some 1%nat) None)) (Some userT) (reflectNew userT) 2.

Definition age_query : Firestore.Query :=
  Firestore.mkQuery "users" [Firestore.OpWhere "age" ">" (Some (VInt 30))].

Definition set_age : list Firestore.Update := [Firestore.mkUpdate "age" (Some (VInt 50))].

Definition age_spec : Query :=
  mkQuerySpec [mkWhere "age" ">" (Some (VInt 30)) None] [] 0.

(** ** Value providers of query specifications *)



(** ** Records that cannot receive an identifier *)

(** A record passed by value, or a record passed by pointer whose struct
    has no string field "ID". *)
Definition identifier_not_settable (model : iface) : Prop :=
  match model with
  | Some (VStruct _ _ _) => True
  | Some (VPtr (VStruct _ _ fs)) =>
      forall f s, lookupField "ID" fs = Some f -> Content f <> VString s
  | _ => False
  end.

(** ** More sample environments *)

Definition has_commit (h : list event) : bool :=
  existsb (fun e => match e with EvCommit _ => true | _ => false end) h.

(** A store like [stable_store] whose commits fail once one batch has
    been committed. *)
Definition one_commit_store (docs : list Firestore.DocumentSnapshot) : Store :=
  mkStore
    (GetValue (stable_store docs))
    (GetAll (stable_store docs))
    (NewDoc (stable_store docs))
    (Set_ (stable_store docs))
    (Update_ (stable_store docs))
    (fun h _ => if has_commit h then Some "quota exceeded" else None)
    (DataTo (stable_store docs)).

(** A store like [stable_store] whose decoder refuses the document "d2". *)
Definition picky_store (docs : list Firestore.DocumentSnapshot) : Store :=
  mkStore
    (GetValue (stable_store docs))
    (GetAll (stable_store docs))
    (NewDoc (stable_store docs))
    (Set_ (stable_store docs))
    (Update_ (stable_store docs))
    (Commit (stable_store docs))
    (fun doc v => if String.eqb (Firestore.ID (Firestore.Ref doc)) "d2"
                  then inl "type mismatch"
                  else inr (decode doc v)).

(** A store of single documents: it finds the documents of [docs] by
    collection and identifier, and its deletes succeed. *)
Definition doc_store (docs : list Firestore.DocumentSnapshot) : DocStore :=
  mkDocStore
    (fun _ _ ref _ =>
       match List.find (fun d => String.eqb (Firestore.Path (Firestore.Ref d)) (Firestore.Path ref)
                                 && String.eqb (Firestore.ID (Firestore.Ref d)) (Firestore.ID ref))
                       docs with
       | Some d => inr d
       | None => inl "document not found"
       end)
    (fun _ _ _ _ => None).

(** * Properties of the record adapter *)

(** ** Identifier injection and extraction *)

Lemma lookupField_name {T} (name : string) (fs : list (StructField T)) f :
  lookupField name fs = Some f -> Name f = name.
Proof.
  induction fs as [|g rest IH]; simpl; [discriminate|].
  destruct (String.eqb (Name g) name) eqn:E.
  - intros [= <-]. now apply String.eqb_eq.
  - exact IH.
Qed.

Lemma lookupField_setField {T} (name : string) (x : T) fs f :
  lookupField name fs = Some f ->
  lookupField name (setField name x fs) = Some (mkField (Name f) (Tag f) x).
Proof.
  induction fs as [|g rest IH]; simpl; [discriminate|].
  destruct (String.eqb (Name g) name) eqn:E.
  - intros [= <-]. simpl. now rewrite E.
  - intros H. simpl. rewrite E. now apply IH.
Qed.

Lemma setField_absent {T} (name : string) (x : T) fs :
  lookupField name fs = None -> setField name x fs = fs.
Proof.
  induction fs as [|g rest IH]; simpl; [reflexivity|].
  destruct (String.eqb (Name g) name); [discriminate|].
  intros H. now rewrite IH.
Qed.

(** Through a pointer to a struct with a string field "ID" the field is
    set. *)
Lemma SetIDField_sets (n : string) (c : option string)
    (fs : list (StructField Value)) (f : StructField Value) (s id : string) :
  lookupField "ID" fs = Some f ->
  Content f = VString s ->
  SetIDField (Some (VPtr (VStruct n c fs))) id
  = Ret (Some (VPtr (VStruct n c (setField "ID" (VString id) fs)))).
Proof.
  intros Hf Hs.
  pose proof (lookupField_name _ _ _ Hf) as Hn.
  unfold SetIDField. simpl. rewrite Hf. simpl.
  rewrite Hn, Hs. reflexivity.
Qed.

Lemma GetID_setField (n : string) (c : option string)
    (fs : list (StructField Value)) (f : StructField Value) (id : string) :
  lookupField "ID" fs = Some f ->
  GetID (Some (VPtr (VStruct n c (setField "ID" (VString id) fs)))) = Ret id.
Proof.
  intros Hf. unfold GetID. simpl.
  rewrite (lookupField_setField _ (VString id) _ _ Hf). reflexivity.
Qed.

(** C6 (amended): for every record passed by pointer whose struct has a
    string-typed field "ID", and every string [id], [GetID] after
    [SetIDField] with [id] returns [id]. *)
Theorem SetIDField_GetID_roundtrip (n : string) (c : option string)
    (fs : list (StructField Value)) (f : StructField Value) (s id : string) :
  lookupField "ID" fs = Some f ->
  Content f = VString s ->
  exists m, SetIDField (Some (VPtr (VStruct n c fs))) id = Ret m
            /\ GetID m = Ret id.
Proof.
  intros Hf Hs. eexists. split.
  - exact (SetIDField_sets n c fs f s id Hf Hs).
  - exact (GetID_setField n c fs f id Hf).
Qed.

(** Where the identifier cannot be set (the record is passed by value, or
    it has no string field "ID"), [SetIDField] leaves the record as it is. *)
Lemma SetIDField_by_value (n : string) (c : option string)
    (fs : list (StructField Value)) (id : string) :
  SetIDField (Some (VStruct n c fs)) id = Ret (Some (VStruct n c fs)).
Proof.
  unfold SetIDField. simpl.
  destruct (lookupField "ID" fs) as [f|]; simpl; [|reflexivity].
  reflexivity.
Qed.

(** ** The field mapping *)

Lemma StructToMap_loop (model : iface) fs :
  recordFields model = Some fs ->
  StructToMap model = structToMapLoop false ∅ fs.
Proof.
  destruct model as [[| | | | |[]|]|]; simpl; try discriminate;
    intros [= <-]; reflexivity.
Qed.

Lemma structToMapStep_mapped data f :
  mapped f = true -> IsExported (Name f) = true ->
  structToMapStep false data f = Ret (<[Tag f := Content f]> data).
Proof.
  unfold mapped, structToMapStep. intros Hm He.
  apply negb_true_iff in Hm. rewrite Hm, He. reflexivity.
Qed.

Lemma structToMapStep_unmapped data f :
  mapped f = false -> structToMapStep false data f = Ret data.
Proof.
  unfold mapped, structToMapStep. intros Hm.
  apply negb_false_iff in Hm. now rewrite Hm.
Qed.

(** The loop returns when every mapped field is exported. *)
Lemma structToMapLoop_returns fs : forall data,
  (forall f, f ∈ fs -> mapped f = true -> IsExported (Name f) = true) ->
  exists data', structToMapLoop false data fs = Ret data'.
Proof.
  induction fs as [|f rest IH]; intros data Hexp; simpl; [eauto|].
  destruct (mapped f) eqn:Hm.
  - rewrite structToMapStep_mapped; [|done|apply Hexp; [left|done]].
    simpl. apply IH. intros g Hg. apply Hexp. now right.
  - rewrite structToMapStep_unmapped by done.
    simpl. apply IH. intros g Hg. apply Hexp. now right.
Qed.

(** Every entry of the result was there at the start or comes from a
    mapped field. *)
Lemma structToMapLoop_sound fs : forall data data' k v,
  structToMapLoop false data fs = Ret data' ->
  data' !! k = Some v ->
  data !! k = Some v
  \/ exists f, f ∈ fs /\ mapped f = true /\ Tag f = k /\ Content f = v.
Proof.
  induction fs as [|f rest IH]; intros data data' k v; simpl.
  - intros [= <-] H. now left.
  - destruct (structToMapStep false data f) as [d1|] eqn:Hstep; simpl; [|discriminate].
    intros Hloop Hk.
    destruct (IH _ _ _ _ Hloop Hk) as [Hd1|(g & Hg & Hmg & Htg & Hcg)].
    + unfold structToMapStep in Hstep.
      destruct (String.eqb (Tag f) "" || String.eqb (Tag f) "-") eqn:Hm.
      * injection Hstep as <-. now left.
      * destruct (false || negb (IsExported (Name f))); [discriminate|].
        injection Hstep as <-.
        rewrite lookup_insert in Hd1. case_decide as Hdec.
        -- right. exists f. repeat split; [left|..|done|congruence].
           unfold mapped. now rewrite Hm.
        -- now left.
    + right. exists g. repeat split; [now right|done..].
Qed.

(** A key that no mapped field carries keeps its entry. *)
Lemma structToMapLoop_other fs : forall data data' k,
  structToMapLoop false data fs = Ret data' ->
  k ∉ mappedTags fs ->
  data' !! k = data !! k.
Proof.
  induction fs as [|f rest IH]; intros data data' k; simpl.
  - now intros [= <-] _.
  - destruct (structToMapStep false data f) as [d1|] eqn:Hstep; simpl; [|discriminate].
    intros Hloop Hk. unfold mappedTags in Hk. rewrite filter_cons in Hk.
    unfold structToMapStep in Hstep.
    destruct (String.eqb (Tag f) "" || String.eqb (Tag f) "-") eqn:Hm.
    + injection Hstep as <-. apply (IH _ _ _ Hloop).
      destruct (decide (mapped f = true)) as [Hmf|]; [|done].
      unfold mapped in Hmf. rewrite Hm in Hmf. discriminate.
    + destruct (false || negb (IsExported (Name f))); [discriminate|].
      injection Hstep as <-.
      destruct (decide (mapped f = true)) as [Hmf|Hmf].
      * simpl in Hk. apply not_elem_of_cons in Hk as [Hne Hk].
        rewrite (IH _ _ _ Hloop Hk). now rewrite lookup_insert_ne.
      * unfold mapped in Hmf. rewrite Hm in Hmf. now destruct Hmf.
Qed.

(** With pairwise distinct annotation names every mapped field is in the
    result under its annotation name. *)
Lemma structToMapLoop_complete fs : forall data data' f,
  NoDup (mappedTags fs) ->
  structToMapLoop false data fs = Ret data' ->
  f ∈ fs -> mapped f = true ->
  data' !! Tag f = Some (Content f).
Proof.
  induction fs as [|g rest IH]; intros data data' f Hnd; simpl.
  - intros _ Hf. now apply elem_of_nil in Hf.
  - destruct (structToMapStep false data g) as [d1|] eqn:Hstep; simpl; [|discriminate].
    intros Hloop Hf Hmf.
    unfold mappedTags in Hnd. rewrite filter_cons in Hnd.
    apply elem_of_cons in Hf as [->|Hf].
    + destruct (decide (mapped g = true)) as [_|]; [|done].
      simpl in Hnd. apply NoDup_cons in Hnd as [Hnotin _].
      rewrite (structToMapLoop_other _ _ _ _ Hloop Hnotin).
      unfold structToMapStep in Hstep. unfold mapped in Hmf.
      apply negb_true_iff in Hmf. rewrite Hmf in Hstep.
      destruct (false || negb (IsExported (Name g))); [discriminate|].
      injection Hstep as <-. apply lookup_insert_eq.
    + apply (IH d1 data' f); [|done..].
      destruct (decide (mapped g = true)); [|done].
      simpl in Hnd. now apply NoDup_cons in Hnd as [_ ?].
Qed.

Lemma lookupField_elem_of {T} (name : string) (fs : list (StructField T)) f :
  lookupField name fs = Some f -> f ∈ fs.
Proof.
  induction fs as [|g rest IH]; simpl; [discriminate|].
  destruct (String.eqb (Name g) name).
  - intros [= <-]. left.
  - intros H. right. now apply IH.
Qed.

Lemma mappedTags_Permutation fs fs' :
  fs ≡ₚ fs' -> mappedTags fs ≡ₚ mappedTags fs'.
Proof.
  intros H. unfold mappedTags. apply Permutation_map. now rewrite H.
Qed.

(** C5 (amended): for every record whose mapped fields are exported and
    carry pairwise distinct annotation names, the mapping produced by
    [StructToMap] contains exactly the fields whose annotation is neither
    empty nor "-", each under its annotation name, and is the same for
    every declaration order of the fields; the identifier field is mapped
    like any other field when its annotation is neither empty nor "-". *)
Theorem StructToMap_mapping (model : iface) (fs : list (StructField Value)) :
  recordFields model = Some fs ->
  (forall f, f ∈ fs -> mapped f = true -> IsExported (Name f) = true) ->
  NoDup (mappedTags fs) ->
  exists data,
    StructToMap model = Ret data
    /\ (forall k v, data !! k = Some v <->
          exists f, f ∈ fs /\ mapped f = true /\ Tag f = k /\ Content f = v)
    /\ (forall model' fs', recordFields model' = Some fs' -> fs ≡ₚ fs' ->
          StructToMap model' = Ret data)
    /\ (forall f, lookupField "ID" fs = Some f -> mapped f = true ->
          data !! Tag f = Some (Content f)).
Proof.
  intros Hrec Hexp Hnd.
  assert (Hchar : forall gs d, gs ≡ₚ fs ->
            structToMapLoop false ∅ gs = Ret d ->
            forall k v, d !! k = Some v <->
              exists f, f ∈ fs /\ mapped f = true /\ Tag f = k /\ Content f = v).
  { intros gs d Hperm Hloop k v. split.
    - intros Hk.
      destruct (structToMapLoop_sound _ _ _ _ _ Hloop Hk)
        as [Hempty|(f & Hf & Hm & Ht & Hc)].
      + rewrite lookup_empty in Hempty. discriminate.
      + exists f. rewrite <- Hperm. auto.
    - intros (f & Hf & Hm & <- & <-).
      apply (structToMapLoop_complete gs ∅ d f); [|done| |done].
      + now rewrite (mappedTags_Permutation _ _ Hperm).
      + now rewrite Hperm. }
  destruct (structToMapLoop_returns fs ∅ Hexp) as [data Hdata].
  exists data. split; [|split; [|split]].
  - now rewrite (StructToMap_loop _ _ Hrec).
  - now apply (Hchar fs).
  - intros model' fs' Hrec' Hperm.
    rewrite (StructToMap_loop _ _ Hrec').
    destruct (structToMapLoop_returns fs' ∅) as [data' Hdata'].
    { intros f Hf. apply Hexp. now rewrite Hperm. }
    rewrite Hdata'. f_equal. apply map_eq. intros k.
    apply option_eq. intros v.
    rewrite (Hchar fs' data' (symmetry Hperm) Hdata' k v).
    rewrite (Hchar fs data (reflexivity fs) Hdata k v). reflexivity.
  - intros f Hf Hm.
    apply (Hchar fs data (reflexivity fs) Hdata).
    exists f. repeat split; [|done]. now apply lookupField_elem_of in Hf.
Qed.

(** * Properties of the orchestrator *)

(** ** Heap lemmas: a freshly allocated [DB] *)

Lemma deref_valid db o w :
  heap w !! db = Some o -> deref db w = (Ret o, w).
Proof. unfold deref. now intros ->. Qed.

Lemma lookup_fresh (h : list dbOptions) (o : dbOptions) :
  (h ++ [o]) !! List.length h = Some o.
Proof. now apply list_lookup_middle. Qed.

Lemma insert_fresh (h : list dbOptions) (o o' : dbOptions) :
  <[List.length h := o']> (h ++ [o]) = h ++ [o'].
Proof.
  rewrite insert_app_r_alt by reflexivity.
  now rewrite Nat.sub_diag.
Qed.

(** Copying the receiver into a new [DB] and changing the copy. *)
Lemma alloc_copy_assign (f : dbOptions -> dbOptions) db o w :
  heap w !! db = Some o ->
  (let* o := deref db in
   let* newInstance := alloc o in
   let* o' := deref newInstance in
   let* _ := assign newInstance (f o') in
   ret newInstance) w
  = (Ret (List.length (heap w)), mkWorld (heap w ++ [f o]) (log w)).
Proof.
  intros H. unfold bind at 1. rewrite (deref_valid _ _ _ H).
  unfold bind, alloc, deref, assign, ret. simpl.
  rewrite lookup_fresh. simpl. now rewrite insert_fresh.
Qed.

(** ** SetUpdateBatchSize *)

(** [SetUpdateBatchSize] builds the new instance and then returns the
    receiver: the pointer it returns is the one it was called on, and the
    batch size read through it is the old one. *)
Lemma SetUpdateBatchSize_returns_receiver db o size w :
  heap w !! db = Some o ->
  SetUpdateBatchSize db size w
  = (Ret db, mkWorld (heap w ++ [with_batch o size]) (log w)).
Proof.
  intros H. unfold SetUpdateBatchSize.
  unfold bind at 1. rewrite (deref_valid _ _ _ H).
  unfold bind, alloc, deref, assign, ret. simpl.
  rewrite lookup_fresh. simpl. now rewrite insert_fresh.
Qed.

(** C4 (the code at the failing input): on a fresh orchestrator, whose
    batch size is 100, [SetUpdateBatchSize 1] returns the orchestrator it
    was called on, and [GetUpdateBatchSize] still answers 100. *)
Theorem SetUpdateBatchSize_keeps_old_size :
  fst ((let* db := New None in
        let* db' := SetUpdateBatchSize db 1 in
        let* size := GetUpdateBatchSize db' in
        ret (db, db', size)) (mkWorld [] []))
  = Ret (0%nat, 0%nat, 100).
Proof. reflexivity. Qed.

(** ** Model *)

Lemma Model_binds db o model t w :
  heap w !! db = Some o ->
  structType model = Some t ->
  Model db model w
  = (Ret (List.length (heap w)), mkWorld (heap w ++ [with_model o t (reflectNew t)]) (log w)).
Proof.
  intros Hdb Ht.
  destruct model as [[| | | |[]|[]|]|]; simpl in Ht; try discriminate;
    injection Ht as <-; unfold Model; unfold bind at 1, lift; simpl;
    now apply (alloc_copy_assign (fun o' => with_model o' _ _)).
Qed.

Lemma Model_panics db model w :
  structType model = None ->
  is_panic (fst (Model db model w)) /\ snd (Model db model w) = w.
Proof.
  intros Ht. unfold Model.
  destruct model as [v|]; [|now split].
  unfold bind at 1, lift. simpl.
  destruct v as [| | |e its|e|t|n c fs]; simpl in *; try (now split).
  - destruct e; simpl; now split.
  - destruct t; simpl; now split.
Qed.

(** C10: on an argument that is neither a struct nor a pointer to a
    struct, [Model] panics (and changes nothing); on a struct or a pointer
    to a struct it does not panic, and returns a pointer to a new
    orchestrator, a copy of the receiver with the struct type bound, while
    the receiver and every other orchestrator stay as they were. *)
Theorem Model_panics_or_binds (db : ptr) (o : dbOptions) (model : iface) (w : World) :
  heap w !! db = Some o ->
  match structType model with
  | None => is_panic (fst (Model db model w)) /\ snd (Model db model w) = w
  | Some t =>
      exists w', Model db model w = (Ret (List.length (heap w)), w')
        /\ heap w' !! List.length (heap w)
           = Some (mkOptions (conn o) (Some t) (reflectNew t) (updateBatchSize o))
        /\ heap w !! List.length (heap w) = None
        /\ (forall p o', heap w !! p = Some o' -> heap w' !! p = Some o')
        /\ log w' = log w
  end.
Proof.
  intros Hdb. destruct (structType model) as [t|] eqn:Ht.
  - exists (mkWorld (heap w ++ [with_model o t (reflectNew t)]) (log w)).
    split; [exact (Model_binds db o model t w Hdb Ht)|]. simpl. repeat split.
    + apply lookup_fresh.
    + now apply lookup_ge_None_2.
    + intros p o' Hp. now apply lookup_app_l_Some.
  - now apply Model_panics.
Qed.

(** ** ApplyQueries *)

Section ApplyClauses.

Context (S : Store).

Lemma applyClauses_app cs1 : forall cs2 q w,
  applyClauses S q (cs1 ++ cs2) w
  = (let* '(q1, err) := applyClauses S q cs1 in
     match err with
     | Some e => ret (q1, Some e)
     | None => applyClauses S q1 cs2
     end) w.
Proof.
  induction cs1 as [|c rest IH]; intros cs2 q w; [reflexivity|].
  destruct c as [f|o|n]; simpl; [|apply IH..].
  destruct (ValueProvider f) as [p|]; [|apply IH].
  unfold bind, call. simpl.
  destruct (GetValue S (log w) p) as [e|v]; [reflexivity|].
  rewrite IH. reflexivity.
Qed.

Lemma applyWhere_clauses ws : forall q w,
  applyWhere S q ws w = applyClauses S q (map CFilter ws) w.
Proof.
  induction ws as [|f rest IH]; intros q w; [reflexivity|]. simpl.
  destruct (ValueProvider f) as [p|]; [|apply IH].
  unfold bind, call. simpl.
  destruct (GetValue S (log w) p) as [e|v]; [reflexivity|apply IH].
Qed.

Lemma applyOrderBy_clauses os : forall q w,
  applyClauses S q (map COrder os) w = (Ret (applyOrderBy q os, None), w).
Proof.
  induction os as [|o rest IH]; intros q w; [reflexivity|]. simpl. apply IH.
Qed.

Lemma applyLimit_clauses (limit : Z) q w :
  applyClauses S q (if decide (0 < limit /\ limit <> QueryLimitUnlimited)
                  then [CLimit limit] else []) w
  = (Ret (applyLimit q limit, None), w).
Proof.
  unfold applyLimit. case_decide as H.
  - destruct H as [H1 H2].
    apply Z.ltb_lt in H1. apply Z.eqb_neq in H2. now rewrite H1, H2.
  - destruct (Z.ltb 0 limit) eqn:H1; [|reflexivity].
    destruct (Z.eqb limit QueryLimitUnlimited) eqn:H2; [reflexivity|].
    apply Z.ltb_lt in H1. apply Z.eqb_neq in H2. now destruct H.
Qed.

(** The nested loops of [ApplyQueries] apply the clauses of the
    specifications one after the other. *)
Lemma ApplyQueries_clauses queries : forall q w,
  ApplyQueries S q queries w = applyClauses S q (flat_map spec_clauses queries) w.
Proof.
  induction queries as [|qry rest IH]; intros q w; [reflexivity|].
  simpl. unfold spec_clauses.
  rewrite <- !app_assoc. rewrite applyClauses_app.
  unfold bind at 1 2. rewrite applyWhere_clauses.
  destruct (applyClauses S q (map CFilter (Where qry)) w) as [[[q1 [e|]]|msg] w1];
    [reflexivity| |reflexivity].
  rewrite applyClauses_app. unfold bind at 1.
  rewrite applyOrderBy_clauses.
  rewrite applyClauses_app. unfold bind at 1.
  rewrite applyLimit_clauses. apply IH.
Qed.

(** Clauses with literal values are calls on the query, in order. *)
Lemma applyClauses_literal cs : forall q w,
  Forall literal cs ->
  applyClauses S q cs w
  = (Ret (Firestore.mkQuery (Firestore.Collection q)
            (Firestore.Ops q ++ map clause_op cs), None), w).
Proof.
  induction cs as [|c rest IH]; intros q w Hlit.
  - simpl. rewrite app_nil_r. now destruct q.
  - apply Forall_cons in Hlit as [Hc Hrest].
    destruct c as [f|o|n]; simpl in *;
      [rewrite Hc|..]; rewrite IH by done; simpl; now rewrite <- app_assoc.
Qed.

(** A failed resolution stops the application. *)
Lemma applyClauses_abort pre f post p err q q1 w w1 :
  applyClauses S q pre w = (Ret (q1, None), w1) ->
  ValueProvider f = Some p ->
  GetValue S (log w1) p = inl err ->
  applyClauses S q (pre ++ CFilter f :: post) w
  = (Ret (q1, Some ("failed to get value for field " +:+ Field f +:+ ": " +:+ err)),
     mkWorld (heap w1) (log w1 ++ [EvGetValue p])).
Proof.
  intros Hpre Hp Herr.
  rewrite applyClauses_app. unfold bind at 1. rewrite Hpre.
  simpl. rewrite Hp. unfold bind, call. simpl. now rewrite Herr.
Qed.

End ApplyClauses.

(** C7: [ApplyQueries] applies the clauses of the specifications one after
    the other: the specifications in the given order and, within each, the
    filters as listed, then the order clauses as listed, then the limit
    only when it is greater than zero and not the unlimited sentinel. When
    every value is a literal the result is the query with these calls
    appended in that order. When the value provider of a filter fails, the
    application stops there: the error names the filter's field, the query
    carries the clauses before the filter only, and no later provider is
    asked. *)
Theorem ApplyQueries_in_order (S : Store) (q : Firestore.Query)
    (queries : list Query) (w : World) :
  ApplyQueries S q queries w = applyClauses S q (flat_map spec_clauses queries) w
  /\ (Forall literal (flat_map spec_clauses queries) ->
      ApplyQueries S q queries w
      = (Ret (Firestore.mkQuery (Firestore.Collection q)
                (Firestore.Ops q ++ map clause_op (flat_map spec_clauses queries)),
              None), w))
  /\ (forall pre f post p err q1 w1,
        flat_map spec_clauses queries = pre ++ CFilter f :: post ->
        applyClauses S q pre w = (Ret (q1, None), w1) ->
        ValueProvider f = Some p ->
        GetValue S (log w1) p = inl err ->
        ApplyQueries S q queries w
        = (Ret (q1, Some ("failed to get value for field " +:+ Field f +:+ ": " +:+ err)),
           mkWorld (heap w1) (log w1 ++ [EvGetValue p]))).
Proof.
  split; [apply ApplyQueries_clauses|split].
  - intros Hlit. rewrite ApplyQueries_clauses. now apply applyClauses_literal.
  - intros pre f post p err q1 w1 Hsplit Hpre Hp Herr.
    rewrite ApplyQueries_clauses, Hsplit.
    now apply applyClauses_abort.
Qed.

(** ** Running the orchestrator step by step *)

Lemma bind_run {A B} (m : M A) (k : A -> M B) a w w' :
  m w = (Ret a, w') -> bind m k w = k a w'.
Proof. unfold bind. now intros ->. Qed.

Lemma lift_run {A} (r : res A) a w : r = Ret a -> lift r w = (Ret a, w).
Proof. now intros ->. Qed.

Lemma GetModelType_run db o w :
  heap w !! db = Some o -> GetModelType db w = (Ret (modelType o), w).
Proof.
  intros H. unfold GetModelType. now rewrite (bind_run _ _ _ _ _ (deref_valid _ _ _ H)).
Qed.

Lemma GetModelValue_run db o w :
  heap w !! db = Some o -> GetModelValue db w = (Ret (modelVal o), w).
Proof.
  intros H. unfold GetModelValue. now rewrite (bind_run _ _ _ _ _ (deref_valid _ _ _ H)).
Qed.

Lemma GetUpdateBatchSize_run db o w :
  heap w !! db = Some o -> GetUpdateBatchSize db w = (Ret (updateBatchSize o), w).
Proof.
  intros H. unfold GetUpdateBatchSize.
  now rewrite (bind_run _ _ _ _ _ (deref_valid _ _ _ H)).
Qed.

Lemma connection_run db o c w :
  heap w !! db = Some o -> conn o = Some c -> connection db w = (Ret c, w).
Proof.
  intros H Hc. unfold connection, GetConnection.
  unfold bind. rewrite (deref_valid _ _ _ H). simpl. now rewrite Hc.
Qed.

Lemma collectionRef_run db o c cl colName w :
  heap w !! db = Some o -> conn o = Some c -> client c = Some cl ->
  collectionRef db colName w = (Ret colName, w).
Proof.
  intros H Hc Hcl. unfold collectionRef.
  rewrite (bind_run _ _ _ _ _ (connection_run _ _ _ _ H Hc)). now rewrite Hcl.
Qed.

Lemma structType_struct model t :
  structType model = Some t -> exists n c fs, t = TStruct n c fs.
Proof.
  destruct model as [[| | | |[]|[]|]|]; simpl; try discriminate;
    intros [= <-]; eauto.
Qed.

Lemma CollectionName_run db o t w :
  heap w !! db = Some o ->
  modelType o = Some t -> modelVal o = reflectNew t ->
  (exists n c fs, t = TStruct n c fs) ->
  CollectionName db w = (Ret (collectionOf t, None), w).
Proof.
  intros H Ht Hv (n & c & fs & ->). unfold CollectionName.
  rewrite (bind_run _ _ _ _ _ (GetModelType_run _ _ _ H)). rewrite Ht.
  rewrite (bind_run _ _ _ _ _ (GetModelValue_run _ _ _ H)). rewrite Hv.
  unfold bind, lift. simpl. now destruct c.
Qed.

Lemma recordFields_structType model fs :
  recordFields model = Some fs -> exists t, structType model = Some t.
Proof.
  destruct model as [[| | | | |[]|]|]; simpl; try discriminate; eauto.
Qed.

Lemma GetID_record model fs :
  recordFields model = Some fs -> exists id, GetID model = Ret id.
Proof.
  destruct model as [[| | | | |[]|]|]; simpl; try discriminate; intros _;
    unfold GetID; simpl;
    (match goal with |- context [lookupField ?n ?l] =>
       destruct (lookupField n l) as [f|] end; simpl; [|eauto]);
    match goal with |- context [if ?b then _ else _] => destruct b end; eauto.
Qed.

Lemma after_Model_lookup w o t :
  heap (after_Model w o t) !! List.length (heap w) = Some (bound o t).
Proof. apply lookup_fresh. Qed.

(** ** Save *)

Lemma saveUpdates_missing data fieldsToSave : forall updates,
  (exists f, f ∈ fieldsToSave /\ data !! f = None) ->
  exists g, g ∈ fieldsToSave /\ data !! g = None
            /\ saveUpdates data fieldsToSave updates
               = inl ("field " +:+ g +:+ " not found in model data").
Proof.
  induction fieldsToSave as [|f rest IH]; intros updates (g & Hg & Hnone).
  - now apply elem_of_nil in Hg.
  - simpl. destruct (data !! f) as [v|] eqn:Hf.
    + destruct (IH (updates ++ [Firestore.mkUpdate f (Some v)])) as (h & Hh & Hh' & Hrun).
      { exists g. split; [|done].
        apply elem_of_cons in Hg as [->|Hg]; [congruence|done]. }
      exists h. repeat split; [now right|done..].
    + exists f. repeat split; [left|done].
Qed.

Section SaveProperties.

Context (S : Store) (db : ptr) (o : dbOptions) (c : Connection) (cl : Client)
        (model : iface) (t : Ty) (id : string) (data : gmap string Value)
        (w : World).

Hypothesis Hdb : heap w !! db = Some o.
Hypothesis Hconn : conn o = Some c.
Hypothesis Hclient : client c = Some cl.
Hypothesis Htype : structType model = Some t.
Hypothesis Hid : GetID model = Ret id.
Hypothesis Hdata : StructToMap model = Ret data.

Let d : ptr := List.length (heap w).
Let w1 : World := after_Model w o t.

Lemma Save_enters fieldsToSave :
  Save S db model fieldsToSave w = save S model fieldsToSave d w1.
Proof.
  unfold Save. now rewrite (bind_run _ _ _ _ _ (Model_binds _ _ _ _ _ Hdb Htype)).
Qed.

(** The steps of [save] up to the field mapping. *)
Lemma save_prefix fieldsToSave :
  save S model fieldsToSave d w1
  = (let docRef := Firestore.mkRef (collectionOf t) id in
     let* '(docRef, model, id) :=
       (if String.eqb id "" && Nat.eqb (List.length fieldsToSave) 0
        then
          let* col := collectionRef d (collectionOf t) in
          let* newID := call (EvNewDoc col) (fun h => NewDoc S h col) in
          let docRef := Firestore.mkRef col newID in
          let* model := lift (SetIDField model (Firestore.ID docRef)) in
          ret (docRef, model, Firestore.ID docRef)
        else ret (docRef, model, id)) in
     if Nat.ltb 0 (List.length fieldsToSave) && String.eqb id ""
     then ret (Some "cannot update fields on a record with no ID", model)
     else if Nat.eqb (List.length fieldsToSave) 0
     then
       let* c := connection d in
       let* err := call (EvSet docRef data (HasTransaction c))
                        (fun h => Set_ S h docRef data (HasTransaction c)) in
       ret (err, model)
     else
       match saveUpdates data fieldsToSave [] with
       | inl e => ret (Some e, model)
       | inr updates =>
           let* c := connection d in
           let* err := call (EvUpdate docRef updates (HasTransaction c))
                            (fun h => Update_ S h docRef updates (HasTransaction c)) in
           ret (err, model)
       end) w1.
Proof.
  pose proof (after_Model_lookup w o t) as Hd. fold d w1 in Hd.
  unfold save.
  rewrite (bind_run _ _ _ _ _ (GetModelType_run _ _ _ Hd)).
  change (modelType (bound o t)) with (Some t). cbv iota.
  rewrite (bind_run _ _ _ _ _
             (CollectionName_run _ _ t _ Hd eq_refl eq_refl (structType_struct _ _ Htype))).
  cbv beta iota.
  rewrite (bind_run _ _ _ _ _ (lift_run _ _ _ Hid)).
  rewrite (bind_run _ _ _ _ _ (collectionRef_run _ _ _ _ _ _ Hd Hconn Hclient)).
  rewrite (bind_run _ _ _ _ _ (lift_run _ _ _ Hdata)).
  reflexivity.
Qed.

Lemma Save_partial_no_id fieldsToSave :
  fieldsToSave <> [] -> id = "" ->
  Save S db model fieldsToSave w
  = (Ret (Some "cannot update fields on a record with no ID", model), w1).
Proof.
  intros Hne Hempty. rewrite Save_enters, save_prefix.
  destruct fieldsToSave as [|f rest]; [done|]. rewrite Hempty. reflexivity.
Qed.

Lemma Save_partial_missing fieldsToSave e :
  fieldsToSave <> [] -> id <> "" ->
  saveUpdates data fieldsToSave [] = inl e ->
  Save S db model fieldsToSave w = (Ret (Some e, model), w1).
Proof.
  intros Hne Hid' He. rewrite Save_enters, save_prefix.
  destruct fieldsToSave as [|f rest]; [done|].
  apply String.eqb_neq in Hid'. cbv zeta. rewrite Hid'.
  change (Nat.eqb (List.length (f :: rest)) 0) with false.
  change (Nat.ltb 0 (List.length (f :: rest))) with true.
  cbn [andb]. unfold bind at 1, ret at 1.
  cbv beta iota. now rewrite Hid', He.
Qed.

End SaveProperties.

(** C8: a partial-field [Save] ([fieldsToSave] not empty) on a record with
    an empty identifier fails with the error "cannot update fields on a
    record with no ID"; on a record with an identifier, when a listed field
    name is absent from the record's field mapping, it fails with an error
    that names an absent listed field (the first one). In both cases the
    history of external calls is the one before the call: nothing was
    written, nothing was even asked. *)
Theorem Save_partial_fails (S : Store) (db : ptr) (o : dbOptions) (c : Connection)
    (cl : Client) (model : iface) (t : Ty) (id : string)
    (data : gmap string Value) (fieldsToSave : list string) (w : World) :
  heap w !! db = Some o -> conn o = Some c -> client c = Some cl ->
  structType model = Some t ->
  GetID model = Ret id ->
  StructToMap model = Ret data ->
  fieldsToSave <> [] ->
  (id = "" ->
   exists w', Save S db model fieldsToSave w
              = (Ret (Some "cannot update fields on a record with no ID", model), w')
              /\ log w' = log w)
  /\ (id <> "" ->
      (exists f, f ∈ fieldsToSave /\ data !! f = None) ->
      exists g w', g ∈ fieldsToSave /\ data !! g = None
        /\ Save S db model fieldsToSave w
           = (Ret (Some ("field " +:+ g +:+ " not found in model data"), model), w')
        /\ log w' = log w).
Proof.
  intros Hdb Hconn Hclient Htype Hid Hdata Hne. split.
  - intros Hempty. exists (after_Model w o t). split; [|reflexivity].
    now apply (Save_partial_no_id S db o c cl model t id data w).
  - intros Hid' Hmissing.
    destruct (saveUpdates_missing data fieldsToSave [] Hmissing) as (g & Hg & Hnone & Hrun).
    exists g, (after_Model w o t). repeat split; [done..|].
    now apply (Save_partial_missing S db o c cl model t id data w).
Qed.

(** A full-document [Save] of a record without identifier: the field
    mapping is the one computed before the identifier is generated. *)
Lemma Save_new_document (S : Store) (db : ptr) (o : dbOptions) (c : Connection)
    (cl : Client) (model model' : iface) (t : Ty) (data : gmap string Value)
    (w : World) :
  heap w !! db = Some o -> conn o = Some c -> client c = Some cl ->
  structType model = Some t ->
  GetID model = Ret "" ->
  StructToMap model = Ret data ->
  SetIDField model (NewDoc S (log w) (collectionOf t)) = Ret model' ->
  Save S db model [] w
  = (Ret (Set_ S (log w ++ [EvNewDoc (collectionOf t)])
                (Firestore.mkRef (collectionOf t) (NewDoc S (log w) (collectionOf t)))
                data (HasTransaction c),
          model'),
     mkWorld (heap w ++ [bound o t])
       ((log w ++ [EvNewDoc (collectionOf t)])
        ++ [EvSet (Firestore.mkRef (collectionOf t) (NewDoc S (log w) (collectionOf t)))
              data (HasTransaction c)])).
Proof.
  intros Hdb Hconn Hclient Htype Hid Hdata Hset.
  rewrite (Save_enters S db o model t w Hdb Htype).
  rewrite (save_prefix S o c cl model t "" data w Hconn Hclient Htype Hid Hdata).
  pose proof (after_Model_lookup w o t) as Hd.
  cbv zeta. change (String.eqb "" "" && Nat.eqb (List.length (@nil string)) 0) with true.
  cbv iota.
  unfold bind at 1.
  rewrite (bind_run _ _ _ _ _ (collectionRef_run _ _ _ _ _ _ Hd Hconn Hclient)).
  unfold bind at 1, call at 1. cbv beta iota. simpl log. simpl heap.
  unfold bind at 1, lift at 1. simpl Firestore.ID. rewrite Hset.
  unfold ret at 1. cbv beta iota.
  change (Nat.ltb 0 (List.length (@nil string))) with false. cbn [andb].
  change (Nat.eqb (List.length (@nil string)) 0) with true. cbv iota.
  erewrite bind_run; [|apply (connection_run _ (bound o t) c); [exact Hd|exact Hconn]].
  reflexivity.
Qed.

Lemma GetID_reads (n : string) (c : option string)
    (fs : list (StructField Value)) (f : StructField Value) (s : string) :
  lookupField "ID" fs = Some f ->
  Content f = VString s ->
  GetID (Some (VPtr (VStruct n c fs))) = Ret s.
Proof.
  intros Hf Hs. unfold GetID. simpl. rewrite Hf. simpl. now rewrite Hs.
Qed.

(** C9: a full-document [Save] of a record with an empty identifier, whose
    identifier field itself carries a mapping annotation. The store is
    asked for a new document identifier and then receives the field
    mapping computed before that: the mapped identifier field of the
    stored document holds the empty string, not the generated identifier,
    while the record in memory receives the generated identifier. *)
Theorem Save_stores_stale_identifier (S : Store) (db : ptr) (o : dbOptions)
    (c : Connection) (cl : Client) (n : string) (cn : option string)
    (fs : list (StructField Value)) (f : StructField Value) (w : World) :
  heap w !! db = Some o -> conn o = Some c -> client c = Some cl ->
  lookupField "ID" fs = Some f -> Content f = VString "" -> mapped f = true ->
  (forall g, g ∈ fs -> mapped g = true -> IsExported (Name g) = true) ->
  NoDup (mappedTags fs) ->
  let model := Some (VPtr (VStruct n cn fs)) in
  let col := collectionOf (TypeOfValue (VStruct n cn fs)) in
  let newID := NewDoc S (log w) col in
  exists data model' err w',
    Save S db model [] w = (Ret (err, model'), w')
    /\ log w' = log w ++ [EvNewDoc col;
                           EvSet (Firestore.mkRef col newID) data (HasTransaction c)]
    /\ data !! Tag f = Some (VString "")
    /\ (newID <> "" -> data !! Tag f <> Some (VString newID))
    /\ GetID model' = Ret newID.
Proof.
  intros Hdb Hconn Hclient Hf Hs Hm Hexp Hnd model col newID.
  destruct (structToMapLoop_returns fs ∅ Hexp) as [data Hdata].
  assert (Hmap : StructToMap model = Ret data).
  { now rewrite (StructToMap_loop model fs eq_refl). }
  assert (Hentry : data !! Tag f = Some (VString "")).
  { rewrite <- Hs.
    apply (structToMapLoop_complete fs ∅ data f Hnd Hdata); [|done].
    now apply lookupField_elem_of in Hf. }
  pose proof (SetIDField_sets n cn fs f "" newID Hf Hs) as Hset.
  eexists data, _, _, _. split; [|split; [|split; [|split]]].
  - apply (Save_new_document S db o c cl model _ (TypeOfValue (VStruct n cn fs)) data w);
      [done..|reflexivity|now apply (GetID_reads n cn fs f "")|done|exact Hset].
  - simpl. now rewrite <- app_assoc.
  - exact Hentry.
  - intros Hnew. rewrite Hentry. congruence.
  - now apply (GetID_setField n cn fs f newID).
Qed.

(** ** FindAll *)

Lemma TypeOfValue_Zero : forall t : Ty, TypeOfValue (Zero t) = t.
Proof.
  fix IH 1. intros [| | |e|e|n c fs]; simpl; try reflexivity.
  f_equal. induction fs as [|[fn ft fc] rest IHfs]; simpl; [reflexivity|].
  f_equal; [|exact IHfs]. f_equal. apply IH.
Qed.

Lemma bind_inv {A B} (m : M A) (k : A -> M B) w b w' :
  bind m k w = (Ret b, w') ->
  exists a w1, m w = (Ret a, w1) /\ k a w1 = (Ret b, w').
Proof.
  unfold bind. destruct (m w) as [[a|msg] w1]; [eauto|discriminate].
Qed.

Lemma lift_inv {A} (r : res A) a w w' :
  lift r w = (Ret a, w') -> r = Ret a /\ w' = w.
Proof. unfold lift. now intros [= -> ->]. Qed.

Lemma ret_inv {A} (a b : A) w w' :
  ret a w = (Ret b, w') -> a = b /\ w' = w.
Proof. unfold ret. now intros [= -> ->]. Qed.

Lemma deref_inv db o w w' :
  deref db w = (Ret o, w') -> heap w !! db = Some o /\ w' = w.
Proof.
  unfold deref. destruct (heap w !! db); [|discriminate]. now intros [= -> ->].
Qed.

(** Reading the orchestrator does not change the world. *)
Lemma GetModelType_inv db mt w w' :
  GetModelType db w = (Ret mt, w') -> w' = w.
Proof.
  unfold GetModelType. intros H.
  apply bind_inv in H as (o & w1 & H1 & H2).
  apply deref_inv in H1 as [_ ->]. now apply ret_inv in H2 as [_ ->].
Qed.

Lemma connection_inv db c w w' :
  connection db w = (Ret c, w') -> w' = w.
Proof.
  unfold connection, GetConnection. intros H.
  apply bind_inv in H as (o & w1 & H1 & H2).
  apply bind_inv in H1 as (o' & w2 & H3 & H4).
  apply deref_inv in H3 as [_ ->]. apply ret_inv in H4 as [_ ->].
  destruct o; [|discriminate]. now apply ret_inv in H2 as [_ ->].
Qed.

Lemma collectionRef_inv db colName col w w' :
  collectionRef db colName w = (Ret col, w') -> col = colName /\ w' = w.
Proof.
  unfold collectionRef. intros H.
  apply bind_inv in H as (c & w1 & H1 & H2).
  apply connection_inv in H1 as ->.
  destruct (client c); [|discriminate]. now apply ret_inv in H2 as [-> ->].
Qed.

Lemma CollectionName_inv db r w w' :
  CollectionName db w = (Ret r, w') -> w' = w.
Proof.
  unfold CollectionName. intros H.
  apply bind_inv in H as (mt & w1 & H1 & H2).
  apply GetModelType_inv in H1 as ->.
  destruct mt as [t|]; [|now apply ret_inv in H2 as [_ ->]].
  apply bind_inv in H2 as (v & w2 & H3 & H4).
  unfold GetModelValue in H3.
  apply bind_inv in H3 as (o & w3 & H5 & H6).
  apply deref_inv in H5 as [_ ->]. apply ret_inv in H6 as [_ ->].
  apply bind_inv in H4 as (m & w4 & H7 & H8).
  apply lift_inv in H7 as [_ ->].
  destruct m; now apply ret_inv in H8 as [_ ->].
Qed.

(** The loop of [FindAll] appends to the slice it starts from. *)
Lemma findAllAppend_appends S t docs : forall sliceVal result,
  findAllAppend S t sliceVal docs = Ret (inr result) ->
  exists new, result = sliceVal ++ new /\ Forall2 (decoded_as S t) docs new.
Proof.
  induction docs as [|doc rest IH]; intros sliceVal result; simpl.
  - intros [= <-]. exists []. split; [now rewrite app_nil_r|constructor].
  - destruct (DataTo S doc (Zero t)) as [e|decoded] eqn:Hdec; [discriminate|].
    destruct (SetIDField (Some (VPtr decoded)) (Firestore.ID (Firestore.Ref doc)))
      as [newInstance|] eqn:Hset; simpl; [|discriminate].
    destruct newInstance as [[| | | | |v|]|]; simpl; try discriminate.
    intros H. destruct (IH _ _ H) as (new & -> & Hnew).
    exists (v :: new). split; [now rewrite <- app_assoc|].
    constructor; [|done]. now exists decoded.
Qed.

Lemma Model_inv db model d w w1 :
  Model db model w = (Ret d, w1) ->
  exists o t, structType model = Some t /\ heap w !! db = Some o
              /\ d = List.length (heap w) /\ w1 = after_Model w o t.
Proof.
  intros H. destruct (structType model) as [t|] eqn:Ht.
  - destruct (heap w !! db) as [o|] eqn:Hdb.
    + rewrite (Model_binds _ _ _ _ _ Hdb Ht) in H. injection H as <- <-.
      now exists o, t.
    + exfalso. unfold Model in H.
      destruct model as [[| | | |[]|[]|]|]; simpl in Ht; try discriminate;
        unfold bind, lift, deref in H; simpl in H; rewrite Hdb in H; discriminate.
  - destruct (Model_panics db model w Ht) as [Hp _]. rewrite H in Hp. destruct Hp.
Qed.

Lemma structType_Zero (t : Ty) :
  TypeKind t = KStruct -> structType (Some (VPtr (Zero t))) = Some t.
Proof.
  destruct t as [| | |e|e|n c fs]; try discriminate. intros _.
  change (Zero (TStruct n c fs))
    with (VStruct n c (map (fun f => mkField (Name f) (Tag f) (Zero (Content f))) fs)).
  unfold structType.
  change (VStruct n c (map (fun f => mkField (Name f) (Tag f) (Zero (Content f))) fs))
    with (Zero (TStruct n c fs)).
  now rewrite TypeOfValue_Zero.
Qed.

Ltac inv_bind H x w H1 H2 := apply bind_inv in H as (x & w & H1 & H2).

(** C3 (amended): when [FindAll] succeeds, the destination is a pointer to
    a slice and afterwards holds the elements it held before the call,
    followed by the documents the store returned, decoded and with their
    identifiers injected, in the order the store returned them. *)
Theorem FindAll_appends (S : Store) (db : ptr) (queries : list Query)
    (dest dest' : iface) (w w' : World) :
  FindAll S db queries dest w = (Ret (None, dest'), w') ->
  exists t items h q inTx docs new,
    dest = Some (VPtr (VSlice t items))
    /\ log w' = h ++ [EvGetAll q inTx]
    /\ GetAll S h q inTx = inr docs
    /\ Forall2 (decoded_as S t) docs new
    /\ dest' = Some (VPtr (VSlice t (items ++ new))).
Proof.
  intros H. unfold FindAll in H.
  inv_bind H destType w0 H0 H. apply lift_inv in H0 as [Hdest ->].
  destruct destType as [| | |elemType|e|n c fs];
    try (apply ret_inv in H as [[=] _]).
  destruct (Kind_eqb (TypeKind elemType) KStruct) eqn:Hkind; simpl in H;
    [|apply ret_inv in H as [[=] _]].
  assert (Hstruct : TypeKind elemType = KStruct) by now destruct elemType.
  inv_bind H dbInstance w1 HM H.
  apply Model_inv in HM as (o & t & Ht & Hdb & -> & ->).
  rewrite (structType_Zero _ Hstruct) in Ht. injection Ht as <-.
  pose proof (after_Model_lookup w o elemType) as Hd.
  unfold findAll in H.
  rewrite (bind_run _ _ _ _ _ (GetModelType_run _ _ _ Hd)) in H.
  change (modelType (bound o elemType)) with (Some elemType) in H. cbv iota in H.
  inv_bind H r w2 HC H. apply CollectionName_inv in HC as ->.
  destruct r as [colName [e|]]; [apply ret_inv in H as [[=] _]|].
  inv_bind H col w2 HR H. apply collectionRef_inv in HR as [-> ->].
  inv_bind H r w2 HQ H.
  destruct r as [q [e|]]; [apply ret_inv in H as [[=] _]|].
  inv_bind H cn w3 Hcn H. apply connection_inv in Hcn as ->.
  inv_bind H docs w3 HG H. unfold getAll, call in HG. injection HG as <- <-.
  destruct (GetAll S (log w2) q (HasTransaction cn)) as [e|docs] eqn:Hdocs;
    [apply ret_inv in H as [[=] _]|].
  inv_bind H target w3 HT H.
  assert (Htarget : exists items, dest = Some (VPtr (VSlice elemType items))
                                  /\ target = RVal (VSlice elemType items) true false
                                  /\ w3 = mkWorld (heap w2) (log w2 ++ [EvGetAll q (HasTransaction cn)])).
  { destruct dest as [[| | | | |v|]|]; simpl in Hdest; try discriminate.
    - simpl in HT. apply ret_inv in HT as [<- _].
      now apply ret_inv in H as [[=] _].
    - simpl in HT. apply ret_inv in HT as [<- _].
      now apply ret_inv in H as [[=] _].
    - injection Hdest as Hdest. simpl in HT. apply lift_inv in HT as [HT ->].
      injection HT as <-.
      destruct v as [| | |e items| | |]; simpl in Hdest; try discriminate.
      injection Hdest as ->. now exists items. }
  destruct Htarget as (items & -> & -> & ->).
  inv_bind H r w4 HA H. apply lift_inv in HA as [HA ->].
  destruct r as [e|sliceVal]; apply ret_inv in H as [[= <-] ->].
  destruct (findAllAppend_appends _ _ _ _ _ HA) as (new & -> & Hnew).
  exists elemType, items, (log w2), q, (HasTransaction cn), docs, new.
  repeat split; try done.
Qed.

(** ** Update by query: the paginated loop *)

Lemma ceil_div_0 b : (0 < b)%nat -> ceil_div 0 b = 0%nat.
Proof. intros H. unfold ceil_div. apply Nat.div_small. lia. Qed.

Lemma ceil_div_step n b :
  (0 < b)%nat -> (0 < n)%nat -> ceil_div n b = Datatypes.S (ceil_div (n - b) b).
Proof.
  intros Hb Hn. unfold ceil_div.
  destruct (le_lt_dec b n) as [Hle|Hlt].
  - replace (n + b - 1)%nat with ((n - b + b - 1) + 1 * b)%nat by lia.
    rewrite Nat.div_add by lia. lia.
  - replace (n - b)%nat with 0%nat by lia.
    replace (n + b - 1)%nat with ((n - 1) + 1 * b)%nat by lia.
    rewrite Nat.div_add by lia.
    rewrite (Nat.div_small (n - 1) b) by lia.
    rewrite (Nat.div_small (0 + b - 1) b) by lia. lia.
Qed.

Lemma after_middle l xs ys :
  docID l ∉ map docID xs -> after (docID l) (xs ++ l :: ys) = ys.
Proof.
  induction xs as [|x xs IH]; simpl; intros Hnotin.
  - fold (docID l). now rewrite String.eqb_refl.
  - apply not_elem_of_cons in Hnotin as [Hne Hnotin].
    fold (docID x). destruct (String.eqb (docID x) (docID l)) eqn:E.
    + apply String.eqb_eq in E. congruence.
    + now apply IH.
Qed.

Lemma last_doc_snoc xs l : last_doc (xs ++ [l]) = Some l.
Proof.
  induction xs as [|x xs IH]; [reflexivity|].
  simpl. rewrite IH. now destruct xs.
Qed.

Lemma last_doc_split docs l :
  last_doc docs = Some l -> exists init, docs = init ++ [l].
Proof.
  induction docs as [|x xs IH]; [discriminate|].
  destruct xs as [|y ys].
  - intros [= ->]. now exists [].
  - intros H. destruct (IH H) as [init ->]. now exists (x :: init).
Qed.

(** After a page of a stable result list, the cursor on the last document
    of the page leaves the documents after the page. *)
Lemma cursor_after_page matching pre rest n l :
  NoDup (map docID matching) ->
  matching = pre ++ rest ->
  last_doc (take n rest) = Some l ->
  l ∈ matching /\ after (docID l) matching = drop n rest.
Proof.
  intros Hnd -> Hlast.
  destruct (last_doc_split _ _ Hlast) as [init Hinit].
  assert (Hrest : rest = init ++ l :: drop n rest).
  { rewrite <- (take_drop n rest) at 1. rewrite Hinit. now rewrite <- app_assoc. }
  split.
  - rewrite Hrest. rewrite !elem_of_app. right. right. left.
  - rewrite Hrest at 1. rewrite app_assoc. apply after_middle.
    rewrite Hrest in Hnd. rewrite app_assoc, map_app in Hnd. simpl in Hnd.
    apply NoDup_app in Hnd as (_ & Hdisj & _).
    intros Hin. apply (Hdisj _ Hin). left.
Qed.

Section UpdateLoop.

Context (S : Store) (d : ptr) (o : dbOptions) (c : Connection)
        (q : Firestore.Query) (updates : list Firestore.Update).

(** One iteration that finds no document ends the loop. *)
Lemma updateLoop_empty_page fuel lastDoc w :
  heap w !! d = Some o ->
  GetAll S (log w) (page_query o q lastDoc) false = inr [] ->
  updateLoop S (Datatypes.S fuel) d q updates lastDoc w
  = (Ret (Finished None),
     mkWorld (heap w) (log w ++ [EvGetAll (page_query o q lastDoc) false])).
Proof.
  intros Hd Hpage. simpl.
  rewrite (bind_run _ _ _ _ _ (GetUpdateBatchSize_run _ _ _ Hd)).
  unfold bind at 1, getAll, call. fold (positioned q lastDoc). fold (page_query o q lastDoc).
  now rewrite Hpage.
Qed.

(** One iteration that finds documents, without a transaction: the page is
    committed as one batch and the loop goes on after its last document. *)
Lemma updateLoop_commits_page fuel lastDoc w doc docs :
  heap w !! d = Some o -> conn o = Some c -> HasTransaction c = false ->
  GetAll S (log w) (page_query o q lastDoc) false = inr (doc :: docs) ->
  Commit S (log w ++ [EvGetAll (page_query o q lastDoc) false]) (batch_of updates (doc :: docs)) = None ->
  updateLoop S (Datatypes.S fuel) d q updates lastDoc w
  = updateLoop S fuel d q updates (last_doc (doc :: docs))
      (mkWorld (heap w)
         ((log w ++ [EvGetAll (page_query o q lastDoc) false])
          ++ [EvCommit (batch_of updates (doc :: docs))])).
Proof.
  intros Hd Hconn Htx Hpage Hcommit. simpl updateLoop at 1.
  rewrite (bind_run _ _ _ _ _ (GetUpdateBatchSize_run _ _ _ Hd)).
  unfold bind at 1, getAll, call. fold (positioned q lastDoc). fold (page_query o q lastDoc).
  rewrite Hpage. cbv beta iota.
  set (w1 := mkWorld (heap w) (log w ++ [EvGetAll (page_query o q lastDoc) false])).
  assert (Hd1 : heap w1 !! d = Some o) by exact Hd.
  rewrite (bind_run _ _ _ _ _ (connection_run _ _ _ _ Hd1 Hconn)).
  rewrite (bind_run _ _ _ _ _ (connection_run _ _ _ _ Hd1 Hconn)).
  rewrite Htx. unfold bind at 1, call. subst w1. cbn [log heap].
  unfold batch_of in *. now rewrite Hcommit.
Qed.

(** One iteration that finds documents while a transaction is active: the
    loop stops with an error before the batch is committed. *)
Lemma updateLoop_transaction fuel lastDoc w doc docs :
  heap w !! d = Some o -> conn o = Some c -> HasTransaction c = true ->
  GetAll S (log w) (page_query o q lastDoc) false = inr (doc :: docs) ->
  updateLoop S (Datatypes.S fuel) d q updates lastDoc w
  = (Ret (Finished (Some "transactional batch updates are not supported")),
     mkWorld (heap w) (log w ++ [EvGetAll (page_query o q lastDoc) false])).
Proof.
  intros Hd Hconn Htx Hpage. simpl updateLoop at 1.
  rewrite (bind_run _ _ _ _ _ (GetUpdateBatchSize_run _ _ _ Hd)).
  unfold bind at 1, getAll, call. fold (positioned q lastDoc). fold (page_query o q lastDoc).
  rewrite Hpage. cbv beta iota.
  set (w1 := mkWorld (heap w) (log w ++ [EvGetAll (page_query o q lastDoc) false])).
  assert (Hd1 : heap w1 !! d = Some o) by exact Hd.
  rewrite (bind_run _ _ _ _ _ (connection_run _ _ _ _ Hd1 Hconn)).
  rewrite (bind_run _ _ _ _ _ (connection_run _ _ _ _ Hd1 Hconn)).
  now rewrite Htx.
Qed.

(** One iteration whose query fails ends the loop with an error. *)
Lemma updateLoop_query_fails fuel lastDoc w e :
  heap w !! d = Some o ->
  GetAll S (log w) (page_query o q lastDoc) false = inl e ->
  updateLoop S (Datatypes.S fuel) d q updates lastDoc w
  = (Ret (Finished (Some ("failed to retrieve documents: " +:+ e))),
     mkWorld (heap w) (log w ++ [EvGetAll (page_query o q lastDoc) false])).
Proof.
  intros Hd Hpage. simpl.
  rewrite (bind_run _ _ _ _ _ (GetUpdateBatchSize_run _ _ _ Hd)).
  unfold bind at 1, getAll, call. fold (positioned q lastDoc). fold (page_query o q lastDoc).
  now rewrite Hpage.
Qed.

End UpdateLoop.

Lemma last_doc_nonempty doc docs : exists l, last_doc (doc :: docs) = Some l.
Proof.
  revert doc. induction docs as [|x xs IH]; intros doc; [now exists doc|].
  destruct (IH x) as [l Hl]. exists l. exact Hl.
Qed.

(** The loop from any position in a stable result list: it commits the
    rest of the list page by page, writes nothing but these commits, and
    asks the store nothing but page queries of [q]. *)
Lemma updateLoop_pages_from (S : Store) (d : ptr) (o : dbOptions) (c : Connection)
    (q : Firestore.Query) (updates : list Firestore.Update)
    (matching : list Firestore.DocumentSnapshot) :
  conn o = Some c -> HasTransaction c = false -> 0 < updateBatchSize o ->
  NoDup (map docID matching) ->
  stable_results S q (updateBatchSize o) matching ->
  (forall h b, Commit S h b = None) ->
  forall n rest pre lastDoc w fuel,
    List.length rest = n ->
    matching = pre ++ rest ->
    cursor_rest matching lastDoc = rest ->
    (forall x, lastDoc = Some x -> x ∈ matching) ->
    heap w !! d = Some o ->
    (ceil_div (List.length rest) (Z.to_nat (updateBatchSize o)) < fuel)%nat ->
    exists evs,
      updateLoop S fuel d q updates lastDoc w
      = (Ret (Finished None), mkWorld (heap w) (log w ++ evs))
      /\ List.length (commits evs)
         = ceil_div (List.length rest) (Z.to_nat (updateBatchSize o))
      /\ List.concat (commits evs) = batch_of updates rest
      /\ List.filter is_write evs = map EvCommit (commits evs)
      /\ Forall (fun e => is_write e = false ->
                         exists cursor, e = EvGetAll (page_query o q cursor) false) evs.
Proof.
  intros Hconn Htx HB Hnd Hstable Hcommit.
  set (nb := Z.to_nat (updateBatchSize o)).
  assert (Hnb : (0 < nb)%nat) by (subst nb; lia).
  induction n as [n IH] using lt_wf_ind.
  intros rest pre lastDoc w fuel Hlen Hsplit Hcur Hvalid Hd Hfuel.
  destruct fuel as [|fuel]; [lia|].
  pose proof (Hstable (log w) lastDoc Hvalid) as Hpage.
  fold (page_query o q lastDoc) in Hpage. fold nb in Hpage. rewrite Hcur in Hpage.
  destruct (take nb rest) as [|doc docs] eqn:Htake.
  - assert (rest = []) as ->.
    { destruct rest; [done|]. destruct nb; [lia|discriminate]. }
    exists [EvGetAll (page_query o q lastDoc) false]. split; [|split; [|split; [|split]]].
    + now apply updateLoop_empty_page.
    + simpl. now rewrite ceil_div_0.
    + reflexivity.
    + reflexivity.
    + constructor; [|constructor]. intros _. now exists lastDoc.
  - destruct (last_doc_nonempty doc docs) as [l Hl].
    assert (Hlast : last_doc (take nb rest) = Some l) by now rewrite Htake.
    destruct (cursor_after_page matching pre rest nb l Hnd Hsplit Hlast) as [Hin Hafter].
    assert (Hpos : (0 < List.length rest)%nat).
    { destruct rest; [now rewrite take_nil in Htake|simpl; lia]. }
    set (w1 := mkWorld (heap w)
                 ((log w ++ [EvGetAll (page_query o q lastDoc) false])
                  ++ [EvCommit (batch_of updates (doc :: docs))])).
    destruct (IH (List.length (drop nb rest))) with
      (rest := drop nb rest) (pre := pre ++ take nb rest)
      (lastDoc := Some l) (w := w1) (fuel := fuel)
      as (evs & Hrun & Hcount & Hall & Hwrites & Hreads).
    + rewrite length_drop. lia.
    + reflexivity.
    + rewrite <- app_assoc, take_drop. exact Hsplit.
    + exact Hafter.
    + now intros x [= <-].
    + exact Hd.
    + rewrite length_drop. rewrite (ceil_div_step _ nb Hnb Hpos) in Hfuel. lia.
    + exists ([EvGetAll (page_query o q lastDoc) false;
               EvCommit (batch_of updates (doc :: docs))] ++ evs).
      split; [|split; [|split; [|split]]].
      * rewrite (updateLoop_commits_page S d o c q updates fuel lastDoc w doc docs
                   Hd Hconn Htx Hpage (Hcommit _ _)).
        rewrite Hl. fold w1. rewrite Hrun. subst w1. simpl.
        now rewrite <- !app_assoc.
      * simpl. rewrite Hcount, length_drop.
        now rewrite (ceil_div_step _ nb Hnb Hpos).
      * simpl. rewrite Hall.
        replace (batch_of updates rest)
          with (batch_of updates (take nb rest ++ drop nb rest))
          by now rewrite take_drop.
        rewrite Htake. unfold batch_of. now rewrite map_app.
      * simpl. now rewrite Hwrites.
      * constructor; [intros _; now exists lastDoc|].
        constructor; [discriminate|exact Hreads].
Qed.

(** C1: for a query whose result set [matching] (of size N) keeps its
    order across the page queries, and a batch size B > 0, the loop of
    [Update], run without a transaction against a store whose commits
    succeed, ends without error as soon as it is given more than
    ceil(N/B) iterations; it commits exactly ceil(N/B) batches (none when
    N = 0), and the batches, one after the other, hold the update of every
    matching document exactly once, in the order of the result set. The
    run writes nothing else: its writes are these commits, and every other
    call to the store is a page query of [q]. *)
Theorem updateLoop_pages (S : Store) (d : ptr) (o : dbOptions) (c : Connection)
    (q : Firestore.Query) (updates : list Firestore.Update)
    (matching : list Firestore.DocumentSnapshot) (w : World) (fuel : nat) :
  heap w !! d = Some o -> conn o = Some c -> HasTransaction c = false ->
  0 < updateBatchSize o ->
  NoDup (map docID matching) ->
  stable_results S q (updateBatchSize o) matching ->
  (forall h b, Commit S h b = None) ->
  (ceil_div (List.length matching) (Z.to_nat (updateBatchSize o)) < fuel)%nat ->
  exists evs,
    updateLoop S fuel d q updates None w
    = (Ret (Finished None), mkWorld (heap w) (log w ++ evs))
    /\ List.length (commits evs)
       = ceil_div (List.length matching) (Z.to_nat (updateBatchSize o))
    /\ List.concat (commits evs) = map (fun doc => (Firestore.Ref doc, updates)) matching
    /\ (matching = [] -> commits evs = [])
    /\ List.filter is_write evs = map EvCommit (commits evs)
    /\ Forall (fun e => is_write e = false ->
                       exists cursor, e = EvGetAll (page_query o q cursor) false) evs.
Proof.
  intros Hd Hconn Htx HB Hnd Hstable Hcommit Hfuel.
  destruct (updateLoop_pages_from S d o c q updates matching Hconn Htx HB Hnd
              Hstable Hcommit (List.length matching) matching [] None w fuel)
    as (evs & Hrun & Hcount & Hall & Hwrites & Hreads); try done.
  exists evs.
  split; [exact Hrun|]. split; [exact Hcount|]. split; [exact Hall|].
  split; [|split; [exact Hwrites|exact Hreads]].
  intros ->. rewrite ceil_div_0 in Hcount by lia.
  now destruct (commits evs).
Qed.

(** ** Update by query while a transaction is active *)

Lemma applyClauses_reads S cs : forall q w,
  exists r evs,
    applyClauses S q cs w = (Ret r, mkWorld (heap w) (log w ++ evs))
    /\ Forall (fun e => is_write e = false) evs.
Proof.
  induction cs as [|cl rest IH]; intros q w.
  - exists (q, None), []. split; [|constructor].
    simpl. rewrite app_nil_r. now destruct w.
  - destruct cl as [f|o|n]; simpl; [|apply IH..].
    destruct (ValueProvider f) as [p|]; [|apply IH].
    unfold bind, call. simpl.
    destruct (GetValue S (log w) p) as [e|v].
    + eexists _, [EvGetValue p]. split; [reflexivity|].
      now repeat constructor.
    + destruct (IH (Firestore.Where q (Field f) (Operator f) v)
                  (mkWorld (heap w) (log w ++ [EvGetValue p]))) as (r & evs & Hrun & Hevs).
      exists r, (EvGetValue p :: evs). split.
      * rewrite Hrun. simpl. now rewrite <- app_assoc.
      * now constructor.
Qed.

Lemma ApplyQueries_reads S queries q w :
  exists r evs,
    ApplyQueries S q queries w = (Ret r, mkWorld (heap w) (log w ++ evs))
    /\ Forall (fun e => is_write e = false) evs.
Proof. rewrite ApplyQueries_clauses. apply applyClauses_reads. Qed.

(** [Update] in by-query mode, up to the loop. *)
Lemma Update_by_query_enters (S : Store) (db : ptr) (o : dbOptions) (c : Connection)
    (cl : Client) (model : iface) (t : Ty) (updates : list Firestore.Update)
    (qry : Query) (where0 : list Query) (rest : list (list Query))
    (w : World) (fuel : nat) :
  heap w !! db = Some o -> conn o = Some c -> client c = Some cl ->
  structType model = Some t ->
  GetID model = Ret "" ->
  Update S fuel db model updates ((qry :: where0) :: rest) w
  = (let* '(q, err) := ApplyQueries S (Firestore.mkQuery (collectionOf t) [])
                         (qry :: where0) in
     match err with
     | Some e => ret (Finished (Some e))
     | None => updateLoop S fuel (List.length (heap w)) q updates None
     end) (after_Model w o t).
Proof.
  intros Hdb Hconn Hclient Htype Hid. unfold Update.
  rewrite (bind_run _ _ _ _ _ (Model_binds _ _ _ _ _ Hdb Htype)).
  pose proof (after_Model_lookup w o t) as Hd.
  unfold update.
  rewrite (bind_run _ _ _ _ _ (GetModelType_run _ _ _ Hd)).
  change (modelType (bound o t)) with (Some t). cbv iota.
  rewrite (bind_run _ _ _ _ _
             (CollectionName_run _ _ t _ Hd eq_refl eq_refl (structType_struct _ _ Htype))).
  cbv beta iota.
  rewrite (bind_run _ _ _ _ _ (lift_run _ _ _ Hid)).
  change (negb (String.eqb "" "")) with false. cbv iota.
  now rewrite (bind_run _ _ _ _ _ (collectionRef_run _ _ _ _ _ _ Hd Hconn Hclient)).
Qed.

(** C2 (amended): [Update] in by-query mode on a session with an active
    transaction returns as soon as it is allowed one iteration of its
    loop, and writes nothing: the external calls it makes are resolutions
    of value providers and at most one page query. When the where-specs
    resolve and that page query, issued outside the transaction, returns
    at least one document, the call fails with the error "transactional
    batch updates are not supported", right after the page query. *)
Theorem Update_by_query_in_transaction (S : Store) (db : ptr) (o : dbOptions)
    (c : Connection) (cl : Client) (model : iface) (t : Ty)
    (updates : list Firestore.Update) (where0 : list Query)
    (rest : list (list Query)) (w : World) (fuel : nat) :
  heap w !! db = Some o -> conn o = Some c -> client c = Some cl ->
  HasTransaction c = true ->
  structType model = Some t ->
  GetID model = Ret "" ->
  where0 <> [] ->
  exists r w' evs,
    Update S (Datatypes.S fuel) db model updates (where0 :: rest) w
    = (Ret (Finished r), w')
    /\ log w' = log w ++ evs
    /\ Forall (fun e => is_write e = false) evs
    /\ (forall q wq doc docs,
          ApplyQueries S (Firestore.mkQuery (collectionOf t) []) where0 (after_Model w o t)
          = (Ret (q, None), wq) ->
          GetAll S (log wq) (Firestore.Limit q (updateBatchSize o)) false
          = inr (doc :: docs) ->
          r = Some "transactional batch updates are not supported"
          /\ log w' = log wq ++ [EvGetAll (Firestore.Limit q (updateBatchSize o)) false]).
Proof.
  intros Hdb Hconn Hclient Htx Htype Hid Hne.
  destruct where0 as [|qry where0]; [done|].
  rewrite (Update_by_query_enters S db o c cl model t updates qry where0 rest w
             (Datatypes.S fuel) Hdb Hconn Hclient Htype Hid).
  pose proof (after_Model_lookup w o t) as Hd.
  destruct (ApplyQueries_reads S (qry :: where0)
              (Firestore.mkQuery (collectionOf t) []) (after_Model w o t))
    as ([q err] & evs & Hrun & Hevs).
  rewrite (bind_run _ _ _ _ _ Hrun).
  set (wq := mkWorld (heap (after_Model w o t)) (log (after_Model w o t) ++ evs)) in *.
  assert (Hdq : heap wq !! List.length (heap w) = Some (bound o t)) by exact Hd.
  destruct err as [e|].
  - exists (Some e), wq, evs.
    split; [reflexivity|]. split; [reflexivity|]. split; [done|].
    intros q' wq' doc docs Hq. rewrite Hrun in Hq. discriminate.
  - destruct (GetAll S (log wq) (page_query (bound o t) q None) false)
      as [e|[|doc docs]] eqn:Hpage.
    + rewrite (updateLoop_query_fails S _ (bound o t) q updates fuel None wq e Hdq Hpage).
      eexists _, _, (evs ++ [EvGetAll (page_query (bound o t) q None) false]).
      split; [reflexivity|]. split; [simpl; now rewrite <- app_assoc|].
      split; [apply Forall_app; split; [done|now repeat constructor]|].
      intros q' wq' doc docs Hq Hg. rewrite Hrun in Hq. injection Hq as <- <-.
      unfold page_query in Hpage. subst wq. simpl in Hpage, Hg. congruence.
    + rewrite (updateLoop_empty_page S _ (bound o t) q updates fuel None wq Hdq Hpage).
      eexists _, _, (evs ++ [EvGetAll (page_query (bound o t) q None) false]).
      split; [reflexivity|]. split; [simpl; now rewrite <- app_assoc|].
      split; [apply Forall_app; split; [done|now repeat constructor]|].
      intros q' wq' doc docs Hq Hg. rewrite Hrun in Hq. injection Hq as <- <-.
      unfold page_query in Hpage. subst wq. simpl in Hpage, Hg. congruence.
    + rewrite (updateLoop_transaction S _ (bound o t) c q updates fuel None wq doc docs
                 Hdq Hconn Htx Hpage).
      eexists _, _, (evs ++ [EvGetAll (page_query (bound o t) q None) false]).
      split; [reflexivity|]. split; [simpl; now rewrite <- app_assoc|].
      split; [apply Forall_app; split; [done|now repeat constructor]|].
      intros q' wq' doc' docs' Hq Hg. rewrite Hrun in Hq. injection Hq as <- <-.
      split; reflexivity.
Qed.

(** * Further properties of the record adapter *)

Lemma StructToMap_inv model data :
  StructToMap model = Ret data ->
  exists fs, recordFields model = Some fs /\ structToMapLoop false ∅ fs = Ret data.
Proof.
  destruct model as [[| | | | |[]|]|]; simpl; try discriminate;
    intros H; eexists; split; try reflexivity; exact H.
Qed.

(** Whatever the record, the mapping [StructToMap] returns has no entry
    under the empty name or under "-", and each of its entries is the
    value of a mapped field under that field's annotation. *)
Theorem StructToMap_keys (model : iface) (data : gmap string Value) :
  StructToMap model = Ret data ->
  data !! "" = None /\ data !! "-" = None
  /\ (forall k v, data !! k = Some v ->
        exists fs f, recordFields model = Some fs /\ f ∈ fs
                     /\ mapped f = true /\ Tag f = k /\ Content f = v).
Proof.
  intros H. destruct (StructToMap_inv _ _ H) as (fs & Hrec & Hloop).
  assert (Hsound : forall k v, data !! k = Some v ->
            exists f, f ∈ fs /\ mapped f = true /\ Tag f = k /\ Content f = v).
  { intros k v Hk.
    destruct (structToMapLoop_sound _ _ _ _ _ Hloop Hk) as [Hempty|Hf]; [|exact Hf].
    rewrite lookup_empty in Hempty. discriminate. }
  split; [|split].
  - destruct (data !! "") as [v|] eqn:Hk; [|reflexivity].
    destruct (Hsound _ _ Hk) as (f & _ & Hm & Ht & _).
    unfold mapped in Hm. rewrite Ht in Hm. discriminate.
  - destruct (data !! "-") as [v|] eqn:Hk; [|reflexivity].
    destruct (Hsound _ _ Hk) as (f & _ & Hm & Ht & _).
    unfold mapped in Hm. rewrite Ht in Hm. discriminate.
  - intros k v Hk. destruct (Hsound _ _ Hk) as (f & Hf).
    exists fs, f. now split.
Qed.

(** [GetID] returns exactly on a struct or a pointer (not nil) to a
    struct; on the nil interface, a nil pointer or any other value it
    panics. *)
Theorem GetID_returns_iff_record (model : iface) :
  (exists id, GetID model = Ret id) <-> is_Some (recordFields model).
Proof.
  split.
  - intros [id H].
    destruct model as [[| | |e its|e|[]|]|]; unfold GetID in H; simpl in H;
      try discriminate; simpl; eexists; reflexivity.
  - intros [fs Hfs]. exact (GetID_record model fs Hfs).
Qed.

Lemma SetIDField_cases (model : iface) (id : string) (model' : iface) :
  SetIDField model id = Ret model' ->
  model' = model
  \/ exists n c fs f s,
       model = Some (VPtr (VStruct n c fs))
       /\ lookupField "ID" fs = Some f /\ Content f = VString s
       /\ model' = Some (VPtr (VStruct n c (setField "ID" (VString id) fs))).
Proof.
  destruct model as [[| | |e its|e|[| | | | | |n c fs]|n c fs]|];
    unfold SetIDField; simpl; try discriminate.
  - destruct (lookupField "ID" fs) as [f|] eqn:Hf; simpl.
    + pose proof (lookupField_name _ _ _ Hf) as Hn. rewrite Hn. simpl.
      destruct (Content f) eqn:Hc; simpl; intros [= <-]; try (now left).
      right. now exists n, c, fs, f, s.
    + intros [= <-]. now left.
  - destruct (lookupField "ID" fs) as [f|]; simpl; intros [= <-]; now left.
Qed.

Lemma lookupField_setField_ne {T} (name other : string) (x : T) fs :
  other <> name ->
  lookupField other (setField name x fs) = lookupField other fs.
Proof.
  intros Hne. induction fs as [|g rest IH]; simpl; [reflexivity|].
  destruct (String.eqb (Name g) name) eqn:E; simpl.
  - apply String.eqb_eq in E.
    destruct (String.eqb (Name g) other) eqn:E'; [|reflexivity].
    apply String.eqb_eq in E'. congruence.
  - now rewrite IH.
Qed.

Lemma setField_length {T} (name : string) (x : T) fs :
  List.length (setField name x fs) = List.length fs.
Proof.
  induction fs as [|g rest IH]; simpl; [reflexivity|].
  destruct (String.eqb (Name g) name); simpl; now rewrite ?IH.
Qed.

Lemma setField_names {T} (name : string) (x : T) fs :
  map (fun f => (Name f, Tag f)) (setField name x fs)
  = map (fun f => (Name f, Tag f)) fs.
Proof.
  induction fs as [|g rest IH]; simpl; [reflexivity|].
  destruct (String.eqb (Name g) name); simpl; now rewrite ?IH.
Qed.

(** [SetIDField] touches nothing but the field "ID": the record keeps its
    fields, their names and annotations in the same order, and every
    field with another name keeps its value. *)
Theorem SetIDField_keeps_other_fields (model model' : iface) (id : string)
    (fs : list (StructField Value)) :
  SetIDField model id = Ret model' ->
  recordFields model = Some fs ->
  exists fs',
    recordFields model' = Some fs'
    /\ map (fun f => (Name f, Tag f)) fs' = map (fun f => (Name f, Tag f)) fs
    /\ (forall name, name <> "ID" -> lookupField name fs' = lookupField name fs).
Proof.
  intros Hset Hrec.
  destruct (SetIDField_cases _ _ _ Hset)
    as [->|(n & c & fs0 & f & s & -> & Hf & Hs & ->)].
  - exists fs. now repeat split.
  - simpl in Hrec. injection Hrec as <-.
    exists (setField "ID" (VString id) fs0). split; [reflexivity|]. split.
    + apply setField_names.
    + intros name Hne. now apply lookupField_setField_ne.
Qed.

Lemma structToMapLoop_setField_unmapped (x : Value) fs : forall data f,
  lookupField "ID" fs = Some f -> mapped f = false ->
  structToMapLoop false data (setField "ID" x fs) = structToMapLoop false data fs.
Proof.
  induction fs as [|g rest IH]; intros data f; simpl; [discriminate|].
  destruct (String.eqb (Name g) "ID") eqn:E.
  - intros [= <-] Hm. simpl.
    rewrite (structToMapStep_unmapped data g Hm).
    now rewrite (structToMapStep_unmapped data (mkField (Name g) (Tag g) x)).
  - intros Hf Hm. simpl.
    destruct (structToMapStep false data g) as [d1|]; simpl; [|reflexivity].
    now apply (IH d1 f).
Qed.

(** When the identifier field is not mapped (its annotation is empty or
    "-"), injecting an identifier does not change the field mapping of the
    record. *)
Theorem StructToMap_after_SetIDField (model model' : iface) (id : string) :
  SetIDField model id = Ret model' ->
  (forall fs f, recordFields model = Some fs -> lookupField "ID" fs = Some f ->
                mapped f = false) ->
  StructToMap model' = StructToMap model.
Proof.
  intros Hset Hunmapped.
  destruct (SetIDField_cases _ _ _ Hset)
    as [->|(n & c & fs & f & s & -> & Hf & Hs & ->)]; [reflexivity|].
  rewrite (StructToMap_loop (Some (VPtr (VStruct n c (setField "ID" (VString id) fs))))
             (setField "ID" (VString id) fs) eq_refl).
  rewrite (StructToMap_loop (Some (VPtr (VStruct n c fs))) fs eq_refl).
  apply (structToMapLoop_setField_unmapped _ _ _ f Hf).
  now apply (Hunmapped fs f).
Qed.

(** * Further properties of the orchestrator *)

(** ** Connections and builders *)

(** [WithConnection] leaves the receiver alone: it returns a pointer to a
    new orchestrator that has the given connection and the receiver's
    model and batch size; every orchestrator that existed keeps its
    options, and no external call is made. *)
Theorem WithConnection_new_instance (db : ptr) (o : dbOptions)
    (c : option Connection) (w : World) :
  heap w !! db = Some o ->
  exists w',
    WithConnection db c w = (Ret (List.length (heap w)), w')
    /\ heap w !! List.length (heap w) = None
    /\ heap w' !! List.length (heap w)
       = Some (mkOptions c (modelType o) (modelVal o) (updateBatchSize o))
    /\ (forall p o', heap w !! p = Some o' -> heap w' !! p = Some o')
    /\ log w' = log w.
Proof.
  intros Hdb.
  exists (mkWorld (heap w ++ [with_conn o c]) (log w)). split; [|split; [|split; [|split]]].
  - unfold WithConnection, SetConnection, bind, deref, alloc, assign, ret. simpl.
    rewrite Hdb. simpl. rewrite lookup_fresh. simpl. now rewrite insert_fresh.
  - now apply lookup_ge_None_2.
  - apply lookup_fresh.
  - intros p o' Hp. now apply lookup_app_l_Some.
  - reflexivity.
Qed.

(** [SetConnection] changes the receiver itself: it returns the pointer it
    was called on, and through that pointer (and every copy of it) the new
    connection is read from then on; the other orchestrators, the model
    and the batch size of the receiver stay. *)
Theorem SetConnection_in_place (db : ptr) (o : dbOptions)
    (c : option Connection) (w : World) :
  heap w !! db = Some o ->
  exists w',
    SetConnection db c w = (Ret db, w')
    /\ GetConnection db w' = (Ret c, w')
    /\ heap w' !! db = Some (mkOptions c (modelType o) (modelVal o) (updateBatchSize o))
    /\ (forall p, p <> db -> heap w' !! p = heap w !! p)
    /\ List.length (heap w') = List.length (heap w)
    /\ log w' = log w.
Proof.
  intros Hdb.
  assert (Hlt : (db < List.length (heap w))%nat) by now apply lookup_lt_Some in Hdb.
  exists (mkWorld (<[db := with_conn o c]> (heap w)) (log w)).
  split; [|split; [|split; [|split; [|split]]]].
  - unfold SetConnection, bind, deref, assign, ret. now rewrite Hdb.
  - unfold GetConnection, bind, deref, ret. simpl.
    now rewrite list_lookup_insert_eq.
  - simpl. now rewrite list_lookup_insert_eq.
  - intros p Hp. simpl. now rewrite list_lookup_insert_ne.
  - simpl. apply length_insert.
  - reflexivity.
Qed.

(** [WithTransaction] returns a new orchestrator whose connection has the
    receiver's client and the given transaction, so it has a transaction
    exactly when the given one is not nil; the receiver keeps its
    connection. On a receiver without connection it panics. *)
Theorem WithTransaction_new_instance (db : ptr) (o : dbOptions)
    (tx : option Transaction) (w : World) :
  heap w !! db = Some o ->
  match conn o with
  | None => is_panic (fst (WithTransaction db tx w)) /\ snd (WithTransaction db tx w) = w
  | Some c =>
      exists w',
        WithTransaction db tx w = (Ret (List.length (heap w)), w')
        /\ heap w' !! List.length (heap w)
           = Some (mkOptions (Some (mkConnection (client c) tx))
                     (modelType o) (modelVal o) (updateBatchSize o))
        /\ HasTransaction (mkConnection (client c) tx) = bool_decide (tx <> None)
        /\ (forall p o', heap w !! p = Some o' -> heap w' !! p = Some o')
        /\ log w' = log w
  end.
Proof.
  intros Hdb. destruct (conn o) as [c|] eqn:Hc.
  - exists (mkWorld (heap w ++ [with_conn o (Some (mkConnection (client c) tx))]) (log w)).
    split; [|split; [|split; [|split]]].
    + unfold WithTransaction.
      rewrite (bind_run _ _ _ _ _ (connection_run _ _ _ _ Hdb Hc)).
      unfold SetConnection, bind, deref, alloc, assign, ret. simpl.
      rewrite Hdb. simpl. rewrite lookup_fresh. simpl. rewrite insert_fresh.
      now destruct tx.
    + apply lookup_fresh.
    + now destruct tx.
    + intros p o' Hp. now apply lookup_app_l_Some.
    + reflexivity.
  - unfold WithTransaction, connection, GetConnection, bind, deref, ret, panic.
    rewrite Hdb. simpl. rewrite Hc. now split.
Qed.

(** ** More on ApplyQueries *)

(** Applying two lists of specifications one after the other is applying
    their concatenation; an error in the first list stops the
    application. *)
Theorem ApplyQueries_app (S : Store) (q : Firestore.Query)
    (queries1 queries2 : list Query) (w : World) :
  ApplyQueries S q (queries1 ++ queries2) w
  = (let* '(q1, err) := ApplyQueries S q queries1 in
     match err with
     | Some e => ret (q1, Some e)
     | None => ApplyQueries S q1 queries2
     end) w.
Proof.
  rewrite ApplyQueries_clauses, flat_map_app, applyClauses_app.
  unfold bind. rewrite <- ApplyQueries_clauses.
  destruct (ApplyQueries S q queries1 w) as [[[q1 [e|]]|msg] w1]; try reflexivity.
  now rewrite ApplyQueries_clauses.
Qed.




(** ** More on Save *)

(** A full-document [Save] of a record that has an identifier: the store
    is not asked for a new identifier; the one external call is a Set of
    the whole field mapping on the document with that identifier, inside
    the transaction when there is one; its error is the result and the
    record is not changed. *)
Theorem Save_overwrites_in_place (S : Store) (db : ptr) (o : dbOptions)
    (c : Connection) (cl : Client) (model : iface) (t : Ty) (id : string)
    (data : gmap string Value) (w : World) :
  heap w !! db = Some o -> conn o = Some c -> client c = Some cl ->
  structType model = Some t ->
  GetID model = Ret id -> id <> "" ->
  StructToMap model = Ret data ->
  exists w',
    Save S db model [] w
    = (Ret (Set_ S (log w) (Firestore.mkRef (collectionOf t) id) data (HasTransaction c),
            model), w')
    /\ log w' = log w ++ [EvSet (Firestore.mkRef (collectionOf t) id) data
                            (HasTransaction c)].
Proof.
  intros Hdb Hconn Hclient Htype Hid Hne Hdata.
  eexists. split.
  - rewrite (Save_enters S db o model t w Hdb Htype).
    rewrite (save_prefix S o c cl model t id data w Hconn Hclient Htype Hid Hdata).
    pose proof (after_Model_lookup w o t) as Hd.
    apply String.eqb_neq in Hne. cbv zeta. rewrite Hne. cbn [andb].
    unfold bind at 1, ret at 1. cbv beta iota.
    change (Nat.ltb 0 (List.length (@nil string))) with false. cbn [andb].
    change (Nat.eqb (List.length (@nil string)) 0) with true. cbv iota.
    erewrite bind_run; [|apply (connection_run _ (bound o t) c); [exact Hd|exact Hconn]].
    reflexivity.
  - reflexivity.
Qed.

Lemma saveUpdates_present data fieldsToSave : forall updates,
  (forall f, f ∈ fieldsToSave -> is_Some (data !! f)) ->
  exists new,
    saveUpdates data fieldsToSave updates = inr (updates ++ new)
    /\ map Firestore.UPath new = fieldsToSave
    /\ Forall (fun u => Firestore.UValue u <> None
                        /\ data !! Firestore.UPath u = Firestore.UValue u) new.
Proof.
  induction fieldsToSave as [|f rest IH]; intros updates Hall.
  - exists []. simpl. rewrite app_nil_r. now repeat split.
  - simpl. destruct (Hall f) as [v Hv]; [left|]. rewrite Hv.
    destruct (IH (updates ++ [Firestore.mkUpdate f (Some v)])) as (new & Hrun & Hpaths & Hvals).
    { intros g Hg. apply Hall. now right. }
    exists (Firestore.mkUpdate f (Some v) :: new). split; [|split].
    + rewrite Hrun. now rewrite <- app_assoc.
    + simpl. now rewrite Hpaths.
    + constructor; [|exact Hvals]. simpl. now split.
Qed.

(** A partial-field [Save] of a record that has an identifier, when every
    listed field name is in the field mapping: the one external call is an
    Update of the document with that identifier, with one entry per listed
    name, in the listed order, carrying the value the mapping has under
    that name; the record is not changed. *)
Theorem Save_partial_updates_listed_fields (S : Store) (db : ptr) (o : dbOptions)
    (c : Connection) (cl : Client) (model : iface) (t : Ty) (id : string)
    (data : gmap string Value) (fieldsToSave : list string) (w : World) :
  heap w !! db = Some o -> conn o = Some c -> client c = Some cl ->
  structType model = Some t ->
  GetID model = Ret id -> id <> "" ->
  StructToMap model = Ret data ->
  fieldsToSave <> [] ->
  (forall f, f ∈ fieldsToSave -> is_Some (data !! f)) ->
  exists updates w',
    Save S db model fieldsToSave w
    = (Ret (Update_ S (log w) (Firestore.mkRef (collectionOf t) id) updates
              (HasTransaction c), model), w')
    /\ log w' = log w ++ [EvUpdate (Firestore.mkRef (collectionOf t) id) updates
                            (HasTransaction c)]
    /\ map Firestore.UPath updates = fieldsToSave
    /\ Forall (fun u => Firestore.UValue u <> None
                        /\ data !! Firestore.UPath u = Firestore.UValue u) updates.
Proof.
  intros Hdb Hconn Hclient Htype Hid Hne Hdata Hfields Hall.
  destruct (saveUpdates_present data fieldsToSave [] Hall) as (updates & Hrun & Hpaths & Hvals).
  exists updates. eexists. split.
  - rewrite (Save_enters S db o model t w Hdb Htype).
    rewrite (save_prefix S o c cl model t id data w Hconn Hclient Htype Hid Hdata).
    pose proof (after_Model_lookup w o t) as Hd.
    destruct fieldsToSave as [|f rest]; [done|].
    apply String.eqb_neq in Hne. cbv zeta. rewrite Hne. cbn [andb].
    unfold bind at 1, ret at 1. cbv beta iota. rewrite Hne.
    change (Nat.eqb (List.length (f :: rest)) 0) with false.
    rewrite andb_false_r. cbv iota. rewrite Hrun. cbn [app].
    erewrite bind_run; [|apply (connection_run _ (bound o t) c); [exact Hd|exact Hconn]].
    reflexivity.
  - split; [reflexivity|split; assumption].
Qed.

Lemma SetIDField_not_settable (model : iface) (id : string) :
  identifier_not_settable model -> SetIDField model id = Ret model.
Proof.
  destruct model as [[| | | | |[| | | | | |n c fs]|n c fs]|]; simpl; try done.
  - intros Hno. unfold SetIDField. simpl.
    destruct (lookupField "ID" fs) as [f|] eqn:Hf; simpl; [|reflexivity].
    pose proof (lookupField_name _ _ _ Hf) as Hn. rewrite Hn. simpl.
    destruct (Content f) eqn:Hc; simpl; try reflexivity.
    now destruct (Hno f s eq_refl).
  - intros _. apply SetIDField_by_value.
Qed.

(** A full-document [Save] of a record that cannot receive an identifier
    (it is passed by value, or its struct has no string field "ID") and
    whose identifier reads as empty: a document is created under a
    generated identifier, but the record comes back unchanged, so the
    identifier is not handed to the caller and a second [Save] of the same
    record creates another document. *)
Theorem Save_loses_generated_identifier (S : Store) (db : ptr) (o : dbOptions)
    (c : Connection) (cl : Client) (model : iface) (t : Ty)
    (data : gmap string Value) (w : World) :
  heap w !! db = Some o -> conn o = Some c -> client c = Some cl ->
  structType model = Some t ->
  identifier_not_settable model ->
  GetID model = Ret "" ->
  StructToMap model = Ret data ->
  exists err w',
    Save S db model [] w = (Ret (err, model), w')
    /\ log w' = log w ++ [EvNewDoc (collectionOf t);
                           EvSet (Firestore.mkRef (collectionOf t)
                                    (NewDoc S (log w) (collectionOf t)))
                             data (HasTransaction c)]
    /\ GetID model = Ret "".
Proof.
  intros Hdb Hconn Hclient Htype Hno Hid Hdata.
  eexists _, _. split.
  - apply (Save_new_document S db o c cl model model t data w); try assumption.
    now apply SetIDField_not_settable.
  - split; [|exact Hid]. simpl. now rewrite <- app_assoc.
Qed.

(** ** More on Update *)

(** [Update] up to the choice between its two modes. *)
Lemma Update_enters (S : Store) (db : ptr) (o : dbOptions) (model : iface)
    (t : Ty) (id : string) (updates : list Firestore.Update)
    (where_ : list (list Query)) (w : World) (fuel : nat) :
  heap w !! db = Some o ->
  structType model = Some t ->
  GetID model = Ret id ->
  Update S fuel db model updates where_ w
  = (if negb (String.eqb id "")
     then
       let* col := collectionRef (List.length (heap w)) (collectionOf t) in
       let docRef := Firestore.mkRef col id in
       let* c := connection (List.length (heap w)) in
       let* err := call (EvUpdate docRef updates (HasTransaction c))
                        (fun h => Update_ S h docRef updates (HasTransaction c)) in
       ret (Finished err)
     else
       match where_ with
       | [] => ret (Finished (Some "either ID or query conditions must be provided"))
       | [] :: _ => ret (Finished (Some "either ID or query conditions must be provided"))
       | where0 :: _ =>
           let* col := collectionRef (List.length (heap w)) (collectionOf t) in
           let q := Firestore.mkQuery col [] in
           let* '(q, err) := ApplyQueries S q where0 in
           match err with
           | Some e => ret (Finished (Some e))
           | None => updateLoop S fuel (List.length (heap w)) q updates None
           end
       end) (after_Model w o t).
Proof.
  intros Hdb Htype Hid. unfold Update.
  rewrite (bind_run _ _ _ _ _ (Model_binds _ _ _ _ _ Hdb Htype)).
  pose proof (after_Model_lookup w o t) as Hd.
  unfold update.
  rewrite (bind_run _ _ _ _ _ (GetModelType_run _ _ _ Hd)).
  change (modelType (bound o t)) with (Some t). cbv iota.
  rewrite (bind_run _ _ _ _ _
             (CollectionName_run _ _ t _ Hd eq_refl eq_refl (structType_struct _ _ Htype))).
  cbv beta iota.
  now rewrite (bind_run _ _ _ _ _ (lift_run _ _ _ Hid)).
Qed.

(** [Update] of a record that has an identifier: whatever where-specs are
    given, no query is made; the one external call is an Update of the
    document with that identifier, inside the transaction when there is
    one, and its error is the result. The loop is not entered, so no
    bound on iterations matters. *)
Theorem Update_by_identifier (S : Store) (db : ptr) (o : dbOptions)
    (c : Connection) (cl : Client) (model : iface) (t : Ty) (id : string)
    (updates : list Firestore.Update) (where_ : list (list Query))
    (w : World) (fuel : nat) :
  heap w !! db = Some o -> conn o = Some c -> client c = Some cl ->
  structType model = Some t ->
  GetID model = Ret id -> id <> "" ->
  exists w',
    Update S fuel db model updates where_ w
    = (Ret (Finished (Update_ S (log w) (Firestore.mkRef (collectionOf t) id) updates
                        (HasTransaction c))), w')
    /\ log w' = log w ++ [EvUpdate (Firestore.mkRef (collectionOf t) id) updates
                            (HasTransaction c)].
Proof.
  intros Hdb Hconn Hclient Htype Hid Hne. eexists. split.
  - rewrite (Update_enters S db o model t id updates where_ w fuel Hdb Htype Hid).
    pose proof (after_Model_lookup w o t) as Hd.
    apply String.eqb_neq in Hne. rewrite Hne. cbn [negb].
    rewrite (bind_run _ _ _ _ _ (collectionRef_run _ _ _ _ _ _ Hd Hconn Hclient)).
    erewrite bind_run; [|apply (connection_run _ (bound o t) c); [exact Hd|exact Hconn]].
    reflexivity.
  - reflexivity.
Qed.

(** [Update] of a record without identifier, with no where-specs or with
    an empty first list of where-specs: it fails with "either ID or query
    conditions must be provided" and makes no external call. *)
Theorem Update_needs_identifier_or_query (S : Store) (db : ptr) (o : dbOptions)
    (model : iface) (t : Ty) (updates : list Firestore.Update)
    (where_ : list (list Query)) (w : World) (fuel : nat) :
  heap w !! db = Some o ->
  structType model = Some t ->
  GetID model = Ret "" ->
  hd [] where_ = [] ->
  exists w',
    Update S fuel db model updates where_ w
    = (Ret (Finished (Some "either ID or query conditions must be provided")), w')
    /\ log w' = log w.
Proof.
  intros Hdb Htype Hid Hwhere. exists (after_Model w o t). split; [|reflexivity].
  rewrite (Update_enters S db o model t "" updates where_ w fuel Hdb Htype Hid).
  change (negb (String.eqb "" "")) with false. cbv iota.
  destruct where_ as [|[|qry where0] rest]; [reflexivity..|discriminate].
Qed.

(** In any iteration of the loop of [Update], when the page query fails
    the loop ends with the error "failed to retrieve documents: ..." and
    nothing is committed in that iteration; when the page is not empty and
    its commit fails the loop ends with "batch commit failed: ...", with
    the failed commit as its last external call. What was committed in
    earlier iterations is still in the history: nothing is undone. *)
Theorem updateLoop_stops_on_failure (S : Store) (d : ptr) (o : dbOptions)
    (c : Connection) (q : Firestore.Query) (updates : list Firestore.Update)
    (lastDoc : option Firestore.DocumentSnapshot) (w : World) (fuel : nat) :
  heap w !! d = Some o -> conn o = Some c -> HasTransaction c = false ->
  (forall e,
     GetAll S (log w) (page_query o q lastDoc) false = inl e ->
     updateLoop S (Datatypes.S fuel) d q updates lastDoc w
     = (Ret (Finished (Some ("failed to retrieve documents: " +:+ e))),
        mkWorld (heap w) (log w ++ [EvGetAll (page_query o q lastDoc) false])))
  /\ (forall doc docs e,
        GetAll S (log w) (page_query o q lastDoc) false = inr (doc :: docs) ->
        Commit S (log w ++ [EvGetAll (page_query o q lastDoc) false])
          (batch_of updates (doc :: docs)) = Some e ->
        updateLoop S (Datatypes.S fuel) d q updates lastDoc w
        = (Ret (Finished (Some ("batch commit failed: " +:+ e))),
           mkWorld (heap w)
             (log w ++ [EvGetAll (page_query o q lastDoc) false;
                        EvCommit (batch_of updates (doc :: docs))]))).
Proof.
  intros Hd Hconn Htx. split.
  - intros e Hpage. now apply updateLoop_query_fails.
  - intros doc docs e Hpage Hcommit. simpl updateLoop at 1.
    rewrite (bind_run _ _ _ _ _ (GetUpdateBatchSize_run _ _ _ Hd)).
    unfold bind at 1, getAll, call. fold (positioned q lastDoc).
    fold (page_query o q lastDoc). rewrite Hpage. cbv beta iota.
    set (w1 := mkWorld (heap w) (log w ++ [EvGetAll (page_query o q lastDoc) false])).
    assert (Hd1 : heap w1 !! d = Some o) by exact Hd.
    rewrite (bind_run _ _ _ _ _ (connection_run _ _ _ _ Hd1 Hconn)).
    rewrite (bind_run _ _ _ _ _ (connection_run _ _ _ _ Hd1 Hconn)).
    rewrite Htx. unfold bind at 1, call. subst w1. cbn [log heap].
    unfold batch_of in *. rewrite Hcommit. unfold ret.
    now rewrite <- app_assoc.
Qed.

(** ** More on FindAll *)

(** [FindAll] checks the type of the destination before anything else:
    when the destination is a pointer to something that is not a slice it
    fails with "dest must be a pointer to a slice", and when the elements
    of the slice are not structs (pointers to structs included) it fails
    with "dest slice element must be a struct"; in both cases no
    orchestrator is allocated and no external call is made. *)
Theorem FindAll_rejects_destination (S : Store) (db : ptr) (queries : list Query)
    (dest : iface) (destType : Ty) (w : World) :
  typeElem dest = Ret destType ->
  match destType with
  | TSlice elemType =>
      TypeKind elemType <> KStruct ->
      FindAll S db queries dest w
      = (Ret (Some "dest slice element must be a struct", dest), w)
  | _ =>
      FindAll S db queries dest w
      = (Ret (Some "dest must be a pointer to a slice", dest), w)
  end.
Proof.
  intros Hdest. unfold FindAll.
  rewrite (bind_run _ _ _ _ _ (lift_run _ _ _ Hdest)).
  destruct destType as [| | |elemType|e|n c fs]; try reflexivity.
  intros Hkind. destruct elemType; try reflexivity. now destruct Hkind.
Qed.

Lemma ApplyQueries_or_skip (S : Store) (q : Firestore.Query) (queries : list Query) w :
  match queries with
  | [] => ret (q, None)
  | _ => ApplyQueries S q queries
  end w = ApplyQueries S q queries w.
Proof. now destruct queries. Qed.

(** [FindAll] on a destination of the right type, up to the answer of the
    store. *)
Lemma FindAll_enters (S : Store) (db : ptr) (o : dbOptions) (c : Connection)
    (cl : Client) (queries : list Query) (dest : iface) (t : Ty)
    (q : Firestore.Query) (w wq : World) :
  heap w !! db = Some o -> conn o = Some c -> client c = Some cl ->
  typeElem dest = Ret (TSlice t) -> TypeKind t = KStruct ->
  ApplyQueries S (Firestore.mkQuery (collectionOf t) []) queries (after_Model w o t)
  = (Ret (q, None), wq) ->
  FindAll S db queries dest w
  = match GetAll S (log wq) q (HasTransaction c) with
    | inl e => ret (Some e, dest)
    | inr docs =>
        let* target :=
          (if Kind_eqb (rKind (ValueOf dest)) KPtr
           then lift (rElem (ValueOf dest)) else ret RInvalid) in
        match target with
        | RVal (VSlice e items) _ _ =>
            let* r := lift (findAllAppend S t items docs) in
            match r with
            | inl e => ret (Some e, dest)
            | inr sliceVal => ret (None, Some (VPtr (VSlice e sliceVal)))
            end
        | _ => ret (Some "dest must be a pointer to a slice", dest)
        end
    end (mkWorld (heap wq) (log wq ++ [EvGetAll q (HasTransaction c)])).
Proof.
  intros Hdb Hconn Hclient Hdest Hkind Hq. unfold FindAll.
  rewrite (bind_run _ _ _ _ _ (lift_run _ _ _ Hdest)). cbv iota.
  rewrite Hkind. cbn [Kind_eqb negb].
  rewrite (bind_run _ _ _ _ _
             (Model_binds _ _ _ _ _ Hdb (structType_Zero _ Hkind))).
  pose proof (after_Model_lookup w o t) as Hd.
  unfold findAll.
  rewrite (bind_run _ _ _ _ _ (GetModelType_run _ _ _ Hd)).
  change (modelType (bound o t)) with (Some t). cbv iota.
  assert (Hstruct : exists n cn fs, t = TStruct n cn fs).
  { destruct t; try discriminate. eauto. }
  rewrite (bind_run _ _ _ _ _ (CollectionName_run _ _ t _ Hd eq_refl eq_refl Hstruct)).
  cbv beta iota.
  rewrite (bind_run _ _ _ _ _ (collectionRef_run _ _ _ _ _ _ Hd Hconn Hclient)).
  unfold bind at 1. rewrite ApplyQueries_or_skip, Hq. cbv beta iota.
  destruct (ApplyQueries_reads S queries (Firestore.mkQuery (collectionOf t) [])
              (after_Model w o t)) as (r & evs & Hrun & _).
  rewrite Hq in Hrun. injection Hrun as <- ->.
  erewrite bind_run; [|apply (connection_run _ (bound o t) c); [exact Hd|exact Hconn]].
  unfold bind at 1, getAll, call. cbn [log heap].
  now destruct (GetAll S _ q (HasTransaction c)).
Qed.

Lemma findAllAppend_decoded S t pre new : forall sliceVal rest,
  Forall2 (decoded_as S t) pre new ->
  findAllAppend S t sliceVal (pre ++ rest) = findAllAppend S t (sliceVal ++ new) rest.
Proof.
  intros sliceVal rest H. revert sliceVal.
  induction H as [|doc v pre new (decoded & Hdec & Hset) _ IH]; intros sliceVal.
  - now rewrite app_nil_r.
  - simpl. rewrite Hdec, Hset. simpl. rewrite IH. now rewrite <- app_assoc.
Qed.

(** [FindAll] on a nil pointer to a slice of structs passes the type
    checks: the query goes to the store first, and only then the call
    fails, leaving the destination as it was. *)
Theorem FindAll_nil_destination_after_query (S : Store) (db : ptr) (o : dbOptions)
    (c : Connection) (cl : Client) (queries : list Query) (t : Ty)
    (q : Firestore.Query) (w wq : World) :
  heap w !! db = Some o -> conn o = Some c -> client c = Some cl ->
  TypeKind t = KStruct ->
  ApplyQueries S (Firestore.mkQuery (collectionOf t) []) queries (after_Model w o t)
  = (Ret (q, None), wq) ->
  exists e,
    FindAll S db queries (Some (VNilPtr (TSlice t))) w
    = (Ret (Some e, Some (VNilPtr (TSlice t))),
       mkWorld (heap wq) (log wq ++ [EvGetAll q (HasTransaction c)]))
    /\ (forall docs, GetAll S (log wq) q (HasTransaction c) = inr docs ->
          e = "dest must be a pointer to a slice").
Proof.
  intros Hdb Hconn Hclient Hkind Hq.
  rewrite (FindAll_enters S db o c cl queries (Some (VNilPtr (TSlice t))) t q w wq
             Hdb Hconn Hclient eq_refl Hkind Hq).
  destruct (GetAll S (log wq) q (HasTransaction c)) as [e|docs].
  - exists e. split; [reflexivity|discriminate].
  - exists "dest must be a pointer to a slice". split; [reflexivity|done].
Qed.

(** When the store answers the query of [FindAll] with documents that all
    decode, the call succeeds: the query is run inside the transaction
    when there is one, and the destination receives, after the elements it
    held, the decoded documents in the order of the answer. *)
Theorem FindAll_returns_decoded_documents (S : Store) (db : ptr) (o : dbOptions)
    (c : Connection) (cl : Client) (queries : list Query) (t : Ty)
    (items new : list Value) (docs : list Firestore.DocumentSnapshot)
    (q : Firestore.Query) (w wq : World) :
  heap w !! db = Some o -> conn o = Some c -> client c = Some cl ->
  TypeKind t = KStruct ->
  ApplyQueries S (Firestore.mkQuery (collectionOf t) []) queries (after_Model w o t)
  = (Ret (q, None), wq) ->
  GetAll S (log wq) q (HasTransaction c) = inr docs ->
  Forall2 (decoded_as S t) docs new ->
  FindAll S db queries (Some (VPtr (VSlice t items))) w
  = (Ret (None, Some (VPtr (VSlice t (items ++ new)))),
     mkWorld (heap wq) (log wq ++ [EvGetAll q (HasTransaction c)])).
Proof.
  intros Hdb Hconn Hclient Hkind Hq Hdocs Hnew.
  rewrite (FindAll_enters S db o c cl queries (Some (VPtr (VSlice t items))) t q w wq
             Hdb Hconn Hclient eq_refl Hkind Hq).
  rewrite Hdocs. unfold bind, lift, ret. simpl.
  rewrite <- (app_nil_r docs).
  rewrite (findAllAppend_decoded S t docs new items [] Hnew). reflexivity.
Qed.

(** When a document of the answer does not decode, [FindAll] fails with
    "failed to parse document: ..." and the destination keeps exactly the
    elements it held: the documents decoded before the failing one are
    dropped. *)
Theorem FindAll_decode_failure_keeps_destination (S : Store) (db : ptr)
    (o : dbOptions) (c : Connection) (cl : Client) (queries : list Query) (t : Ty)
    (items new : list Value) (pre post : list Firestore.DocumentSnapshot)
    (doc : Firestore.DocumentSnapshot) (err : string)
    (q : Firestore.Query) (w wq : World) :
  heap w !! db = Some o -> conn o = Some c -> client c = Some cl ->
  TypeKind t = KStruct ->
  ApplyQueries S (Firestore.mkQuery (collectionOf t) []) queries (after_Model w o t)
  = (Ret (q, None), wq) ->
  GetAll S (log wq) q (HasTransaction c) = inr (pre ++ doc :: post) ->
  Forall2 (decoded_as S t) pre new ->
  DataTo S doc (Zero t) = inl err ->
  FindAll S db queries (Some (VPtr (VSlice t items))) w
  = (Ret (Some ("failed to parse document: " +:+ err), Some (VPtr (VSlice t items))),
     mkWorld (heap wq) (log wq ++ [EvGetAll q (HasTransaction c)])).
Proof.
  intros Hdb Hconn Hclient Hkind Hq Hdocs Hnew Hfail.
  rewrite (FindAll_enters S db o c cl queries (Some (VPtr (VSlice t items))) t q w wq
             Hdb Hconn Hclient eq_refl Hkind Hq).
  rewrite Hdocs. unfold bind, lift, ret. simpl.
  rewrite (findAllAppend_decoded S t pre new items (doc :: post) Hnew).
  simpl. now rewrite Hfail.
Qed.

(** ** FindOne *)

(** [FindOne], up to the answer of the store. *)
Lemma FindOne_enters (S : Store) (db : ptr) (o : dbOptions) (c : Connection)
    (cl : Client) (queries : list Query) (dest : iface) (t : Ty)
    (q : Firestore.Query) (w wq : World) :
  heap w !! db = Some o -> conn o = Some c -> client c = Some cl ->
  structType dest = Some t ->
  ApplyQueries S (Firestore.mkQuery (collectionOf t) []) queries (after_Model w o t)
  = (Ret (q, None), wq) ->
  FindOne S db queries dest w
  = match GetAll S (log wq) (Firestore.Limit q 1) (HasTransaction c) with
    | inl e => ret (Some e, dest)
    | inr [] => ret (Some "no document found", dest)
    | inr (doc :: _) =>
        match dataToDest S doc dest with
        | inl e => ret (Some ("failed to parse document: " +:+ e), dest)
        | inr dest =>
            let* dest := lift (SetIDField dest (Firestore.ID (Firestore.Ref doc))) in
            ret (None, dest)
        end
    end (mkWorld (heap wq) (log wq ++ [EvGetAll (Firestore.Limit q 1) (HasTransaction c)])).
Proof.
  intros Hdb Hconn Hclient Htype Hq. unfold FindOne.
  rewrite (bind_run _ _ _ _ _ (Model_binds _ _ _ _ _ Hdb Htype)).
  pose proof (after_Model_lookup w o t) as Hd.
  unfold findOne.
  rewrite (bind_run _ _ _ _ _ (GetModelType_run _ _ _ Hd)).
  change (modelType (bound o t)) with (Some t). cbv iota.
  rewrite (bind_run _ _ _ _ _
             (CollectionName_run _ _ t _ Hd eq_refl eq_refl (structType_struct _ _ Htype))).
  cbv beta iota.
  rewrite (bind_run _ _ _ _ _ (collectionRef_run _ _ _ _ _ _ Hd Hconn Hclient)).
  unfold bind at 1. rewrite Hq. cbv beta iota.
  destruct (ApplyQueries_reads S queries (Firestore.mkQuery (collectionOf t) [])
              (after_Model w o t)) as (r & evs & Hrun & _).
  rewrite Hq in Hrun. injection Hrun as <- ->.
  erewrite bind_run; [|apply (connection_run _ (bound o t) c); [exact Hd|exact Hconn]].
  unfold bind at 1, getAll, call. cbn [log heap].
  destruct (GetAll S _ (Firestore.Limit q 1) (HasTransaction c)) as [e|[|doc rest]];
    reflexivity.
Qed.

(** [FindOne] asks the store for the caller's query with a limit of 1
    added after every clause of the caller, inside the transaction when
    there is one; when the answer is empty it fails with "no document
    found" and leaves the destination as it was. *)
Theorem FindOne_not_found (S : Store) (db : ptr) (o : dbOptions) (c : Connection)
    (cl : Client) (queries : list Query) (dest : iface) (t : Ty)
    (q : Firestore.Query) (w wq : World) :
  heap w !! db = Some o -> conn o = Some c -> client c = Some cl ->
  structType dest = Some t ->
  ApplyQueries S (Firestore.mkQuery (collectionOf t) []) queries (after_Model w o t)
  = (Ret (q, None), wq) ->
  GetAll S (log wq)
    (Firestore.mkQuery (Firestore.Collection q) (Firestore.Ops q ++ [Firestore.OpLimit 1]))
    (HasTransaction c) = inr [] ->
  FindOne S db queries dest w
  = (Ret (Some "no document found", dest),
     mkWorld (heap wq)
       (log wq ++ [EvGetAll (Firestore.mkQuery (Firestore.Collection q)
                               (Firestore.Ops q ++ [Firestore.OpLimit 1]))
                     (HasTransaction c)])).
Proof.
  intros Hdb Hconn Hclient Htype Hq Hdocs.
  rewrite (FindOne_enters S db o c cl queries dest t q w wq Hdb Hconn Hclient Htype Hq).
  unfold Firestore.Limit, Firestore.chain. now rewrite Hdocs.
Qed.

(** When the store answers the query of [FindOne] with documents, the
    first one is decoded into the struct behind the destination pointer
    and the identifier of that document is written into the field "ID",
    whatever the decoder left there; the other documents are ignored. *)
Theorem FindOne_decodes_first_document (S : Store) (db : ptr) (o : dbOptions)
    (c : Connection) (cl : Client) (queries : list Query) (v : Value) (t : Ty)
    (doc : Firestore.DocumentSnapshot) (rest : list Firestore.DocumentSnapshot)
    (n : string) (cn : option string) (fs : list (StructField Value))
    (f : StructField Value) (s : string) (q : Firestore.Query) (w wq : World) :
  heap w !! db = Some o -> conn o = Some c -> client c = Some cl ->
  structType (Some (VPtr v)) = Some t ->
  ApplyQueries S (Firestore.mkQuery (collectionOf t) []) queries (after_Model w o t)
  = (Ret (q, None), wq) ->
  GetAll S (log wq) (Firestore.Limit q 1) (HasTransaction c) = inr (doc :: rest) ->
  DataTo S doc v = inr (VStruct n cn fs) ->
  lookupField "ID" fs = Some f -> Content f = VString s ->
  FindOne S db queries (Some (VPtr v)) w
  = (Ret (None, Some (VPtr (VStruct n cn (setField "ID" (VString (docID doc)) fs)))),
     mkWorld (heap wq) (log wq ++ [EvGetAll (Firestore.Limit q 1) (HasTransaction c)]))
  /\ GetID (Some (VPtr (VStruct n cn (setField "ID" (VString (docID doc)) fs))))
     = Ret (docID doc).
Proof.
  intros Hdb Hconn Hclient Htype Hq Hdocs Hdec Hf Hs. split.
  - rewrite (FindOne_enters S db o c cl queries (Some (VPtr v)) t q w wq
               Hdb Hconn Hclient Htype Hq).
    rewrite Hdocs. unfold dataToDest. rewrite Hdec.
    fold (docID doc).
    now rewrite (bind_run _ _ _ _ _ (lift_run _ _ _ (SetIDField_sets n cn fs f s _ Hf Hs))).
  - exact (GetID_setField n cn fs f (docID doc) Hf).
Qed.

(** ** GetByID and Delete *)

Lemma dbind_run {A B} (m : D A) (k : A -> D B) a w w' :
  m w = (Ret a, w') -> dbind m k w = k a w'.
Proof. unfold dbind. now intros ->. Qed.

Lemma inWorld_run {A} (m : M A) a (dw : DocWorld) w' :
  m (world dw) = (Ret a, w') -> inWorld m dw = (Ret a, mkDocWorld w' (docLog dw)).
Proof. unfold inWorld. now intros ->. Qed.

Lemma inWorld_panic {A} (m : M A) msg (dw : DocWorld) w' :
  m (world dw) = (Panic msg, w') -> inWorld m dw = (Panic msg, mkDocWorld w' (docLog dw)).
Proof. unfold inWorld. now intros ->. Qed.

(** [GetByID] up to its deferred [recover]. *)
Lemma GetByID_enters (S : Store) (DS : DocStore) (db : ptr) (o : dbOptions)
    (model : iface) (t : Ty) (dw : DocWorld) :
  heap (world dw) !! db = Some o ->
  structType model = Some t ->
  GetByID S DS db model dw
  = recovered model
      (let+ id := inWorld (lift (GetID model)) in
       if String.eqb id ""
       then dret (Some "ID cannot be empty", model)
       else
         let+ col := inWorld (collectionRef (List.length (heap (world dw))) (collectionOf t)) in
         let docRef := Firestore.mkRef col id in
         let+ c := inWorld (connection (List.length (heap (world dw)))) in
         let+ r := docCall (EvGet docRef (HasTransaction c))
                     (fun h dh => DocGet DS h dh docRef (HasTransaction c)) in
         match r with
         | inl e => dret (Some e, model)
         | inr doc =>
             match dataToModel S doc model with
             | inl e => dret (Some ("failed to parse document: " +:+ e), model)
             | inr model => dret (None, model)
             end
         end)
      (mkDocWorld (after_Model (world dw) o t) (docLog dw)).
Proof.
  intros Hdb Htype. unfold GetByID.
  rewrite (dbind_run _ _ _ _ _ (inWorld_run _ _ _ _ (Model_binds _ _ _ _ _ Hdb Htype))).
  pose proof (after_Model_lookup (world dw) o t) as Hd.
  unfold getByIdFunc.
  erewrite dbind_run; [|apply inWorld_run; apply (GetModelType_run _ (bound o t)); exact Hd].
  change (modelType (bound o t)) with (Some t). cbv iota.
  erewrite dbind_run;
    [|apply inWorld_run;
      apply (CollectionName_run _ (bound o t) t _ Hd eq_refl eq_refl
               (structType_struct _ _ Htype))].
  reflexivity.
Qed.

(** [GetByID] of a record whose identifier is empty fails with "ID cannot
    be empty" before any call to the store; the record is not changed. *)
Theorem GetByID_empty_identifier (S : Store) (DS : DocStore) (db : ptr)
    (o : dbOptions) (model : iface) (t : Ty) (dw : DocWorld) :
  heap (world dw) !! db = Some o ->
  structType model = Some t ->
  GetID model = Ret "" ->
  exists dw',
    GetByID S DS db model dw = (Ret (Some "ID cannot be empty", model), dw')
    /\ docLog dw' = docLog dw /\ log (world dw') = log (world dw).
Proof.
  intros Hdb Htype Hid. eexists. split.
  - rewrite (GetByID_enters S DS db o model t dw Hdb Htype).
    unfold recovered.
    erewrite dbind_run; [|apply inWorld_run; apply lift_run; exact Hid].
    reflexivity.
  - now split.
Qed.

(** A panic raised in [GetByID] after its deferred [recover] is in place
    does not reach the caller, and is not reported either: on a nil
    pointer to a struct (where reading the identifier panics), and on an
    orchestrator whose connection has no client, [GetByID] returns the nil
    error without having asked the store, and the record is not changed. *)
Theorem GetByID_swallows_panics (S : Store) (DS : DocStore) (db : ptr)
    (o : dbOptions) (model : iface) (t : Ty) (dw : DocWorld) :
  heap (world dw) !! db = Some o ->
  structType model = Some t ->
  (is_panic (GetID model)
   \/ exists id c, GetID model = Ret id /\ id <> "" /\ conn o = Some c /\ client c = None) ->
  exists dw',
    GetByID S DS db model dw = (Ret (None, model), dw')
    /\ docLog dw' = docLog dw /\ log (world dw') = log (world dw).
Proof.
  intros Hdb Htype Hpanic. eexists. split.
  - rewrite (GetByID_enters S DS db o model t dw Hdb Htype).
    unfold recovered.
    destruct Hpanic as [Hp|(id & c & Hid & Hne & Hconn & Hclient)].
    + destruct (GetID model) as [id|msg] eqn:Hid; [destruct Hp|].
      unfold dbind, inWorld, lift. reflexivity.
    + erewrite dbind_run; [|apply inWorld_run; apply lift_run; exact Hid].
      apply String.eqb_neq in Hne. rewrite Hne.
      unfold dbind at 1, inWorld at 1, collectionRef.
      pose proof (after_Model_lookup (world dw) o t) as Hd.
      cbn [world docLog].
      rewrite (bind_run _ _ _ _ _ (connection_run _ (bound o t) c _ Hd Hconn)).
      rewrite Hclient. reflexivity.
  - now split.
Qed.

(** [GetByID] of a record with an identifier makes one call: a Get of the
    document with that identifier in the collection of the record's type,
    inside the transaction when there is one. An error of the store (the
    document does not exist, for one) is the result, and the record is not
    changed; a document that is found is decoded into the struct behind
    the pointer. *)
Theorem GetByID_gets_document (S : Store) (DS : DocStore) (db : ptr)
    (o : dbOptions) (c : Connection) (cl : Client) (v : Value) (t : Ty)
    (id : string) (dw : DocWorld) :
  heap (world dw) !! db = Some o -> conn o = Some c -> client c = Some cl ->
  structType (Some (VPtr v)) = Some t ->
  GetID (Some (VPtr v)) = Ret id -> id <> "" ->
  let docRef := Firestore.mkRef (collectionOf t) id in
  let answer := DocGet DS (log (world dw)) (docLog dw) docRef (HasTransaction c) in
  exists r dw',
    GetByID S DS db (Some (VPtr v)) dw = (Ret r, dw')
    /\ docLog dw' = docLog dw ++ [EvGet docRef (HasTransaction c)]
    /\ log (world dw') = log (world dw)
    /\ (forall e, answer = inl e -> r = (Some e, Some (VPtr v)))
    /\ (forall doc v', answer = inr doc -> DataTo S doc v = inr v' ->
          r = (None, Some (VPtr v')))
    /\ (forall doc e, answer = inr doc -> DataTo S doc v = inl e ->
          r = (Some ("failed to parse document: " +:+ e), Some (VPtr v))).
Proof.
  intros Hdb Hconn Hclient Htype Hid Hne docRef answer.
  pose proof (after_Model_lookup (world dw) o t) as Hd.
  assert (Hrun :
    GetByID S DS db (Some (VPtr v)) dw
    = (Ret match answer with
           | inl e => (Some e, Some (VPtr v))
           | inr doc =>
               match DataTo S doc v with
               | inl e => (Some ("failed to parse document: " +:+ e), Some (VPtr v))
               | inr v' => (None, Some (VPtr v'))
               end
           end,
       mkDocWorld (after_Model (world dw) o t)
         (docLog dw ++ [EvGet docRef (HasTransaction c)]))).
  { rewrite (GetByID_enters S DS db o (Some (VPtr v)) t dw Hdb Htype).
    unfold recovered.
    erewrite dbind_run; [|apply inWorld_run; apply lift_run; exact Hid].
    apply String.eqb_neq in Hne. rewrite Hne.
    erewrite dbind_run;
      [|apply inWorld_run;
        apply (collectionRef_run _ (bound o t) c cl _ _ Hd Hconn Hclient)].
    erewrite dbind_run;
      [|apply inWorld_run; apply (connection_run _ (bound o t) c _ Hd Hconn)].
    unfold dbind, docCall. cbn [world docLog log after_Model].
    fold docRef. fold answer.
    destruct answer as [e|doc]; [reflexivity|].
    unfold dataToModel. now destruct (DataTo S doc v). }
  eexists _, _. split; [exact Hrun|].
  split; [reflexivity|]. split; [reflexivity|].
  split; [|split].
  - now intros e ->.
  - intros doc v' -> Hdec. now rewrite Hdec.
  - intros doc e -> Hdec. now rewrite Hdec.
Qed.

(** [Delete] does not bind the model from the record it is given: on an
    orchestrator without model it fails with "no model set, call
    db.Model(&Model{}) first", and on a bound orchestrator a record whose
    identifier is empty fails with "ID cannot be empty for delete"; in
    both cases the store is not called. *)
Theorem Delete_fails_before_the_store (DS : DocStore) (db : ptr)
    (o : dbOptions) (model : iface) (dw : DocWorld) :
  heap (world dw) !! db = Some o ->
  (modelType o = None ->
   Delete DS db model dw = (Ret (Some "no model set, call db.Model(&Model{}) first"), dw))
  /\ (forall t, modelType o = Some t -> modelVal o = reflectNew t ->
        (exists n c fs, t = TStruct n c fs) ->
        GetID model = Ret "" ->
        Delete DS db model dw = (Ret (Some "ID cannot be empty for delete"), dw)).
Proof.
  intros Hdb. split.
  - intros Hmt. unfold Delete.
    erewrite dbind_run; [|apply inWorld_run; apply (GetModelType_run _ o); exact Hdb].
    rewrite Hmt. now destruct dw as [[]].
  - intros t Hmt Hval Hstruct Hid. unfold Delete.
    erewrite dbind_run; [|apply inWorld_run; apply (GetModelType_run _ o); exact Hdb].
    rewrite Hmt.
    erewrite dbind_run;
      [|apply inWorld_run; apply (CollectionName_run _ o t _ Hdb Hmt Hval Hstruct)].
    cbv beta iota.
    erewrite dbind_run; [|apply inWorld_run; apply lift_run; exact Hid].
    now destruct dw as [[]].
Qed.

(** [Delete] on a bound orchestrator, of a record with an identifier:
    the one call is a Delete of the document with that identifier in the
    collection of the orchestrator's model (the type of the record given
    plays no part), inside the transaction when there is one; the answer
    of the store is the result, so deleting a document that does not exist
    is an error only if the store says so. *)
Theorem Delete_deletes_in_bound_collection (DS : DocStore) (db : ptr)
    (o : dbOptions) (c : Connection) (cl : Client) (t : Ty) (model : iface)
    (id : string) (dw : DocWorld) :
  heap (world dw) !! db = Some o -> conn o = Some c -> client c = Some cl ->
  modelType o = Some t -> modelVal o = reflectNew t ->
  (exists n cn fs, t = TStruct n cn fs) ->
  GetID model = Ret id -> id <> "" ->
  Delete DS db model dw
  = (Ret (DocDelete DS (log (world dw)) (docLog dw)
            (Firestore.mkRef (collectionOf t) id) (HasTransaction c)),
     mkDocWorld (world dw)
       (docLog dw ++ [EvDelete (Firestore.mkRef (collectionOf t) id) (HasTransaction c)])).
Proof.
  intros Hdb Hconn Hclient Hmt Hval Hstruct Hid Hne. unfold Delete.
  erewrite dbind_run; [|apply inWorld_run; apply (GetModelType_run _ o); exact Hdb].
  rewrite Hmt.
  erewrite dbind_run;
    [|apply inWorld_run; apply (CollectionName_run _ o t _ Hdb Hmt Hval Hstruct)].
  cbv beta iota.
  erewrite dbind_run; [|apply inWorld_run; apply lift_run; exact Hid].
  apply String.eqb_neq in Hne. rewrite Hne.
  erewrite dbind_run;
    [|apply inWorld_run; apply (collectionRef_run _ o c cl _ _ Hdb Hconn Hclient)].
  erewrite dbind_run; [|apply inWorld_run; apply (connection_run _ o c _ Hdb Hconn)].
  unfold docCall. now destruct dw as [[]].
Qed.

(** ** Update by query, from the entry point *)

(** [Update] of a record without identifier, outside a transaction, with
    where-specs whose values are all literals, against a store whose page
    queries answer from one ordered result list of N documents and whose
    commits succeed: given more than ceil(N/B) iterations the call returns
    the nil error, having committed ceil(N/B) batches that hold the update
    of every matching document once. These commits are all it writes, and
    every other call to the store is a page query of the query built from
    the where-specs of the first list only, in the collection of the
    record's type. *)
Theorem Update_by_query_pages (S : Store) (db : ptr) (o : dbOptions)
    (c : Connection) (cl : Client) (model : iface) (t : Ty)
    (updates : list Firestore.Update) (where0 : list Query)
    (rest : list (list Query)) (matching : list Firestore.DocumentSnapshot)
    (w : World) (fuel : nat) :
  heap w !! db = Some o -> conn o = Some c -> client c = Some cl ->
  HasTransaction c = false ->
  structType model = Some t ->
  GetID model = Ret "" ->
  where0 <> [] ->
  Forall literal (flat_map spec_clauses where0) ->
  0 < updateBatchSize o ->
  NoDup (map docID matching) ->
  stable_results S
    (Firestore.mkQuery (collectionOf t) (map clause_op (flat_map spec_clauses where0)))
    (updateBatchSize o) matching ->
  (forall h b, Commit S h b = None) ->
  (ceil_div (List.length matching) (Z.to_nat (updateBatchSize o)) < fuel)%nat ->
  exists evs,
    Update S fuel db model updates (where0 :: rest) w
    = (Ret (Finished None), mkWorld (heap w ++ [bound o t]) (log w ++ evs))
    /\ List.length (commits evs)
       = ceil_div (List.length matching) (Z.to_nat (updateBatchSize o))
    /\ List.concat (commits evs) = batch_of updates matching
    /\ List.filter is_write evs = map EvCommit (commits evs)
    /\ Forall (fun e => is_write e = false ->
                       exists cursor,
                         e = EvGetAll
                               (page_query o
                                  (Firestore.mkQuery (collectionOf t)
                                     (map clause_op (flat_map spec_clauses where0)))
                                  cursor) false) evs.
Proof.
  intros Hdb Hconn Hclient Htx Htype Hid Hne Hlit HB Hnd Hstable Hcommit Hfuel.
  destruct where0 as [|qry where0]; [done|].
  rewrite (Update_by_query_enters S db o c cl model t updates qry where0 rest w fuel
             Hdb Hconn Hclient Htype Hid).
  rewrite (bind_run _ _ _ _ _
             (eq_trans (ApplyQueries_clauses S _ _ _)
                (applyClauses_literal S _ _ _ Hlit))).
  cbv beta iota. cbn [Firestore.Collection Firestore.Ops app].
  pose proof (after_Model_lookup w o t) as Hd.
  destruct (updateLoop_pages_from S (List.length (heap w)) (bound o t) c
              (Firestore.mkQuery (collectionOf t)
                 (map clause_op (flat_map spec_clauses (qry :: where0))))
              updates matching Hconn Htx HB Hnd Hstable Hcommit
              (List.length matching) matching [] None (after_Model w o t) fuel)
    as (evs & Hrun & Hcount & Hall & Hwrites & Hreads); try done.
  exists evs. split; [exact Hrun|]. split; [exact Hcount|]. split; [exact Hall|].
  split; [exact Hwrites|exact Hreads].
Qed.

End Properties.

(** * Examples

    The properties above hold whatever the Unicode tables are. The examples
    that follow are run with the tables of Latin-1. *)

#[global] Existing Instance latin1.

(** Beyond ASCII: an identifier that starts with an upper-case letter of
    Latin-1 is exported, and a type named "Épée" without a
    [CollectionName] method is stored in the collection "épées". *)
Example IsExported_beyond_ASCII :
  IsExported "Édition" = true /\ IsExported "édition" = false
  /\ IsExported "Name" = true /\ IsExported "name" = false.
Proof. vm_compute. repeat split. Qed.

Example collectionOf_beyond_ASCII :
  collectionOf (TStruct "Épée" None []) = "épées"
  /\ collectionOf (TStruct "UserProfile" None []) = "userprofiles".
Proof. vm_compute. split; reflexivity. Qed.

(** C6, as stated, fails on a record without an identifier field: the
    injection does nothing and the extraction returns the empty string. *)
Lemma SetIDField_GetID_no_ID_field :
  SetIDField (Some (VPtr (point 1 2))) "abc" = Ret (Some (VPtr (point 1 2)))
  /\ GetID (Some (VPtr (point 1 2))) = Ret ""
  /\ (let? m := SetIDField (Some (VPtr (point 1 2))) "abc" in GetID m) <> Ret "abc".
Proof. repeat split; try reflexivity. vm_compute. discriminate. Qed.

Lemma SetIDField_GetID_roundtrip_witness :
  exists m, SetIDField (Some (VPtr (user "" "Ann" "ann@example.com" 30))) "doc-1" = Ret m
            /\ GetID m = Ret "doc-1".
Proof.
  apply (SetIDField_GetID_roundtrip "User" None _
           (mkField "ID" "-" (VString "")) "" "doc-1"); reflexivity.
Defined.

(** C5, as stated, fails in two ways. The identifier field of [Example]
    carries the annotation "id" and is part of the mapping; and when two
    fields carry the same annotation the later one in declaration order
    wins, so the mapping depends on the order and misses a field. *)
Lemma StructToMap_keeps_annotated_ID :
  entry (StructToMap (Some (VPtr (example "abc" "Ann" "ann@example.com")))) "id"
    = Ret (Some (VString "abc"))
  /\ entry (StructToMap (Some (clash 1 2))) "v" = Ret (Some (VInt 2))
  /\ entry (StructToMap (Some (clash_swapped 1 2))) "v" = Ret (Some (VInt 1)).
Proof. repeat split; vm_compute; reflexivity. Qed.

Lemma StructToMap_mapping_witness :
  exists data,
    StructToMap (Some (VPtr (user "u1" "Ann" "ann@example.com" 30))) = Ret data
    /\ (forall k v, data !! k = Some v <->
          exists f, f ∈ [ mkField "ID" "-" (VString "u1");
                           mkField "Name" "name" (VString "Ann");
                           mkField "Email" "email" (VString "ann@example.com");
                           mkField "Age" "age" (VInt 30) ]
                    /\ mapped f = true /\ Tag f = k /\ Content f = v)
    /\ (forall model' fs', recordFields model' = Some fs' ->
          [ mkField "ID" "-" (VString "u1");
            mkField "Name" "name" (VString "Ann");
            mkField "Email" "email" (VString "ann@example.com");
            mkField "Age" "age" (VInt 30) ] ≡ₚ fs' ->
          StructToMap model' = Ret data)
    /\ (forall f, lookupField "ID"
                    [ mkField "ID" "-" (VString "u1");
                      mkField "Name" "name" (VString "Ann");
                      mkField "Email" "email" (VString "ann@example.com");
                      mkField "Age" "age" (VInt 30) ] = Some f ->
          mapped f = true -> data !! Tag f = Some (Content f)).
Proof.
  apply (StructToMap_mapping (Some (VPtr (user "u1" "Ann" "ann@example.com" 30)))).
  - reflexivity.
  - intros f Hf Hm.
    repeat (apply elem_of_cons in Hf as [->|Hf]; [reflexivity || discriminate|]).
    now apply elem_of_nil in Hf.
  - apply (bool_decide_unpack _). vm_compute. reflexivity.
Defined.

Lemma Model_panics_or_binds_witness :
  exists w', Model 0%nat (Some (VPtr (user "" "Ann" "ann@example.com" 30)))
               (mkWorld [mkOptions None None RInvalid 100] [])
             = (Ret 1%nat, w')
    /\ heap w' !! 1%nat
       = Some (mkOptions None
                 (Some (TypeOfValue (user "" "Ann" "ann@example.com" 30)))
                 (reflectNew (TypeOfValue (user "" "Ann" "ann@example.com" 30))) 100)
    /\ [mkOptions None None RInvalid 100] !! 1%nat = None
    /\ (forall p o', [mkOptions None None RInvalid 100] !! p = Some o' ->
          heap w' !! p = Some o')
    /\ log w' = [].
Proof.
  apply (Model_panics_or_binds 0%nat (mkOptions None None RInvalid 100)
           (Some (VPtr (user "" "Ann" "ann@example.com" 30)))
           (mkWorld [mkOptions None None RInvalid 100] [])).
  reflexivity.
Defined.

Lemma ApplyQueries_in_order_witness :
  ApplyQueries (stable_store []) (Firestore.mkQuery "users" []) sample_queries
    (mkWorld [] [])
  = (Ret (Firestore.mkQuery "users"
            [ Firestore.OpWhere "age" ">" (Some (VInt 30));
              Firestore.OpWhere "score" ">=" (Some (VInt 5));
              Firestore.OpOrderBy "name" Firestore.Asc;
              Firestore.OpLimit 10 ],
          Some "failed to get value for field cursor: provider failed"),
     mkWorld [] [EvGetValue 0%nat; EvGetValue 7%nat]).
Proof.
  apply (proj2 (proj2 (ApplyQueries_in_order (stable_store [])
                         (Firestore.mkQuery "users" []) sample_queries (mkWorld [] [])))
           [ CFilter (mkWhere "age" ">" (Some (VInt 30)) None);
             CFilter (mkWhere "score" ">=" None (Some 0%nat));
             COrder (mkOrder "name" Firestore.Asc);
             CLimit 10 ]
           (mkWhere "cursor" ">" None (Some 7%nat))
           [ CFilter (mkWhere "name" "==" (Some (VString "Ann")) None);
             COrder (mkOrder "age" Firestore.Desc) ]
           7%nat "provider failed"
           (Firestore.mkQuery "users"
              [ Firestore.OpWhere "age" ">" (Some (VInt 30));
                Firestore.OpWhere "score" ">=" (Some (VInt 5));
                Firestore.OpOrderBy "name" Firestore.Asc;
                Firestore.OpLimit 10 ])
           (mkWorld [] [EvGetValue 0%nat])); reflexivity.
Defined.

Lemma Save_partial_fails_witness :
  (exists w', Save (stable_store []) 0%nat
                (Some (VPtr (user "" "Ann" "ann@example.com" 30))) ["name"]
                (mkWorld [connected] [])
              = (Ret (Some "cannot update fields on a record with no ID",
                      Some (VPtr (user "" "Ann" "ann@example.com" 30))), w')
              /\ log w' = [])
  /\ (exists g w', g ∈ ["name"; "nickname"]
        /\ (<["age" := VInt 30]> (<["email" := VString "ann@example.com"]>
              (<["name" := VString "Ann"]> ∅)) : gmap string Value) !! g = None
        /\ Save (stable_store []) 0%nat
             (Some (VPtr (user "u1" "Ann" "ann@example.com" 30))) ["name"; "nickname"]
             (mkWorld [connected] [])
           = (Ret (Some ("field " +:+ g +:+ " not found in model data"),
                   Some (VPtr (user "u1" "Ann" "ann@example.com" 30))), w')
        /\ log w' = []).
Proof.
  split.
  - apply (Save_partial_fails (stable_store []) 0%nat connected
             (mkConnection (Some 1%nat) None) 1%nat
             (Some (VPtr (user "" "Ann" "ann@example.com" 30)))
             (TypeOfValue (user "" "Ann" "ann@example.com" 30)) ""
             (<["age" := VInt 30]> (<["email" := VString "ann@example.com"]>
                (<["name" := VString "Ann"]> ∅)))
             ["name"] (mkWorld [connected] []));
      try reflexivity; discriminate.
  - apply (Save_partial_fails (stable_store []) 0%nat connected
             (mkConnection (Some 1%nat) None) 1%nat
             (Some (VPtr (user "u1" "Ann" "ann@example.com" 30)))
             (TypeOfValue (user "u1" "Ann" "ann@example.com" 30)) "u1"
             (<["age" := VInt 30]> (<["email" := VString "ann@example.com"]>
                (<["name" := VString "Ann"]> ∅)))
             ["name"; "nickname"] (mkWorld [connected] []));
      try reflexivity; try discriminate.
    exists "nickname". split; [|reflexivity].
    apply list_elem_of_In. simpl. tauto.
Defined.

Lemma Save_stores_stale_identifier_witness :
  exists data model' err w',
    Save (stable_store []) 0%nat (Some (VPtr (example "" "Ann" "ann@example.com"))) []
      (mkWorld [connected] [])
    = (Ret (err, model'), w')
    /\ log w' = [] ++ [EvNewDoc "examples";
                        EvSet (Firestore.mkRef "examples" "generated-id") data false]
    /\ data !! "id" = Some (VString "")
    /\ ("generated-id" <> "" -> data !! "id" <> Some (VString "generated-id"))
    /\ GetID model' = Ret "generated-id".
Proof.
  apply (Save_stores_stale_identifier (stable_store []) 0%nat connected
           (mkConnection (Some 1%nat) None) 1%nat "Example" None
           [ mkField "ID" "id" (VString "");
             mkField "Name" "name" (VString "Ann");
             mkField "Email" "email" (VString "ann@example.com") ]
           (mkField "ID" "id" (VString "")) (mkWorld [connected] []));
    try reflexivity.
  - intros g Hg Hm.
    repeat (apply elem_of_cons in Hg as [->|Hg]; [reflexivity|]).
    now apply elem_of_nil in Hg.
  - apply (bool_decide_unpack _). vm_compute. reflexivity.
Defined.

(** C3, as stated, fails on a destination slice that is not empty: the
    element it held is still there after the call, before the document of
    the store. *)
Lemma FindAll_keeps_old_elements :
  fst (FindAll (stable_store [user_doc "d1" "Bob" 40]) 0%nat []
         (Some (VPtr (VSlice userT [user "old" "Old" "old@example.com" 1])))
         (mkWorld [connected] []))
  = Ret (None,
         Some (VPtr (VSlice userT [ user "old" "Old" "old@example.com" 1;
                                    user "d1" "Bob" "" 40 ]))).
Proof. vm_compute. reflexivity. Qed.

Lemma FindAll_appends_witness :
  exists t items h q inTx docs new,
    Some (VPtr (VSlice userT [user "old" "Old" "old@example.com" 1]))
    = Some (VPtr (VSlice t items))
    /\ [EvGetAll (Firestore.mkQuery "users" []) false] = h ++ [EvGetAll q inTx]
    /\ GetAll (stable_store [user_doc "d1" "Bob" 40]) h q inTx = inr docs
    /\ Forall2 (decoded_as (stable_store [user_doc "d1" "Bob" 40]) t) docs new
    /\ Some (VPtr (VSlice userT [ user "old" "Old" "old@example.com" 1;
                                  user "d1" "Bob" "" 40 ]))
       = Some (VPtr (VSlice t (items ++ new))).
Proof.
  apply (FindAll_appends (stable_store [user_doc "d1" "Bob" 40]) 0%nat []
           (Some (VPtr (VSlice userT [user "old" "Old" "old@example.com" 1])))
           (Some (VPtr (VSlice userT [ user "old" "Old" "old@example.com" 1;
                                       user "d1" "Bob" "" 40 ])))
           (mkWorld [connected] [])
           (mkWorld [connected; bound connected userT]
              [EvGetAll (Firestore.mkQuery "users" []) false])).
  vm_compute. reflexivity.
Defined.

Lemma updateLoop_pages_witness :
  exists evs,
    updateLoop (stable_store three_docs) 3 0%nat age_query set_age None
      (mkWorld [batch_of_two] [])
    = (Ret (Finished None), mkWorld [batch_of_two] ([] ++ evs))
    /\ List.length (commits evs) = ceil_div 3 (Z.to_nat 2)
    /\ List.concat (commits evs)
       = map (fun doc => (Firestore.Ref doc, set_age)) three_docs
    /\ (three_docs = [] -> commits evs = [])
    /\ List.filter is_write evs = map EvCommit (commits evs)
    /\ Forall (fun e => is_write e = false ->
                       exists cursor,
                         e = EvGetAll (page_query batch_of_two age_query cursor) false) evs.
Proof.
  apply (updateLoop_pages (stable_store three_docs) 0%nat batch_of_two
           (mkConnection (Some 1%nat) None) age_query set_age three_docs
           (mkWorld [batch_of_two] []) 3).
  - reflexivity.
  - reflexivity.
  - reflexivity.
  - reflexivity.
  - apply (bool_decide_unpack _). vm_compute. reflexivity.
  - intros h [doc|] _; reflexivity.
  - reflexivity.
  - vm_compute. lia.
Defined.

(** The scenario of the specification: three matching documents and a
    batch size of one give three commits of one document each. *)
Example updateLoop_three_pages_of_one :
  commits (log (snd (updateLoop (stable_store three_docs) 4 0%nat age_query set_age None
                       (mkWorld [mkOptions (Some (mkConnection (Some 1%nat) None))
                                   (Some userT) (reflectNew userT) 1] []))))
  = [ [(Firestore.mkRef "users" "d1", set_age)];
      [(Firestore.mkRef "users" "d2", set_age)];
      [(Firestore.mkRef "users" "d3", set_age)] ].
Proof. vm_compute. reflexivity. Qed.

(** C2, as stated, fails in both of its parts. With an active transaction
    and a query that matches no document, [Update] returns without error;
    with a query that matches documents it fails, but only after the page
    query has gone to the store. *)
Lemma Update_in_transaction_asks_the_store :
  Update (stable_store []) 1 0%nat (Some (VPtr (user "" "" "" 0))) set_age [[age_spec]]
    (mkWorld [in_transaction] [])
  = (Ret (Finished None),
     mkWorld [in_transaction; bound in_transaction userT]
       [EvGetAll (Firestore.Limit age_query 100) false])
  /\ Update (stable_store three_docs) 1 0%nat (Some (VPtr (user "" "" "" 0))) set_age
       [[age_spec]] (mkWorld [in_transaction] [])
     = (Ret (Finished (Some "transactional batch updates are not supported")),
        mkWorld [in_transaction; bound in_transaction userT]
          [EvGetAll (Firestore.Limit age_query 100) false]).
Proof. split; vm_compute; reflexivity. Qed.

Lemma Update_by_query_in_transaction_witness :
  exists r w' evs,
    Update (stable_store three_docs) 1 0%nat (Some (VPtr (user "" "" "" 0))) set_age
      [[age_spec]] (mkWorld [in_transaction] [])
    = (Ret (Finished r), w')
    /\ log w' = [] ++ evs
    /\ Forall (fun e => is_write e = false) evs
    /\ (forall q wq doc docs,
          ApplyQueries (stable_store three_docs) (Firestore.mkQuery (collectionOf userT) [])
            [age_spec] (after_Model (mkWorld [in_transaction] []) in_transaction userT)
          = (Ret (q, None), wq) ->
          GetAll (stable_store three_docs) (log wq) (Firestore.Limit q 100) false
          = inr (doc :: docs) ->
          r = Some "transactional batch updates are not supported"
          /\ log w' = log wq ++ [EvGetAll (Firestore.Limit q 100) false]).
Proof.
  apply (Update_by_query_in_transaction (stable_store three_docs) 0%nat in_transaction
           (mkConnection (Some 1%nat) (Some 1%nat)) 1%nat
           (Some (VPtr (user "" "" "" 0))) userT set_age [age_spec] []
           (mkWorld [in_transaction] []) 0);
    try reflexivity.
  discriminate.
Defined.

Lemma StructToMap_keys_witness :
  (<["v" := VInt 2]> ∅ : gmap string Value) !! "" = None
  /\ (<["v" := VInt 2]> ∅ : gmap string Value) !! "-" = None
  /\ (forall k v, (<["v" := VInt 2]> ∅ : gmap string Value) !! k = Some v ->
        exists fs f, recordFields (Some (clash 1 2)) = Some fs /\ f ∈ fs
                     /\ mapped f = true /\ Tag f = k /\ Content f = v).
Proof.
  apply (StructToMap_keys (Some (clash 1 2)) (<["v" := VInt 2]> ∅)).
  reflexivity.
Defined.

Lemma SetIDField_keeps_other_fields_witness :
  exists fs',
    recordFields (Some (VPtr (user "doc-1" "Ann" "ann@example.com" 30))) = Some fs'
    /\ map (fun f => (Name f, Tag f)) fs'
       = map (fun f => (Name f, Tag f))
           [ mkField "ID" "-" (VString "");
             mkField "Name" "name" (VString "Ann");
             mkField "Email" "email" (VString "ann@example.com");
             mkField "Age" "age" (VInt 30) ]
    /\ (forall name, name <> "ID" ->
          lookupField name fs'
          = lookupField name
              [ mkField "ID" "-" (VString "");
                mkField "Name" "name" (VString "Ann");
                mkField "Email" "email" (VString "ann@example.com");
                mkField "Age" "age" (VInt 30) ]).
Proof.
  apply (SetIDField_keeps_other_fields
           (Some (VPtr (user "" "Ann" "ann@example.com" 30)))
           (Some (VPtr (user "doc-1" "Ann" "ann@example.com" 30))) "doc-1");
    reflexivity.
Defined.

Lemma StructToMap_after_SetIDField_witness :
  StructToMap (Some (VPtr (user "doc-1" "Ann" "ann@example.com" 30)))
  = StructToMap (Some (VPtr (user "" "Ann" "ann@example.com" 30))).
Proof.
  apply (StructToMap_after_SetIDField
           (Some (VPtr (user "" "Ann" "ann@example.com" 30)))
           (Some (VPtr (user "doc-1" "Ann" "ann@example.com" 30))) "doc-1").
  - reflexivity.
  - intros fs f [= <-] [= <-]. reflexivity.
Defined.

Lemma WithConnection_new_instance_witness :
  exists w',
    WithConnection 0%nat (Some (mkConnection (Some 2%nat) None)) (mkWorld [connected] [])
    = (Ret 1%nat, w')
    /\ [connected] !! 1%nat = None
    /\ heap w' !! 1%nat
       = Some (mkOptions (Some (mkConnection (Some 2%nat) None)) None RInvalid 100)
    /\ (forall p o', [connected] !! p = Some o' -> heap w' !! p = Some o')
    /\ log w' = [].
Proof.
  apply (WithConnection_new_instance 0%nat connected
           (Some (mkConnection (Some 2%nat) None)) (mkWorld [connected] [])).
  reflexivity.
Defined.

Lemma SetConnection_in_place_witness :
  exists w',
    SetConnection 0%nat None (mkWorld [connected] []) = (Ret 0%nat, w')
    /\ GetConnection 0%nat w' = (Ret None, w')
    /\ heap w' !! 0%nat = Some (mkOptions None None RInvalid 100)
    /\ (forall p, p <> 0%nat -> heap w' !! p = [connected] !! p)
    /\ List.length (heap w') = 1%nat
    /\ log w' = [].
Proof.
  apply (SetConnection_in_place 0%nat connected None (mkWorld [connected] [])).
  reflexivity.
Defined.

Lemma WithTransaction_new_instance_witness :
  exists w',
    WithTransaction 0%nat (Some 7%nat) (mkWorld [connected] []) = (Ret 1%nat, w')
    /\ heap w' !! 1%nat
       = Some (mkOptions (Some (mkConnection (Some 1%nat) (Some 7%nat))) None RInvalid 100)
    /\ HasTransaction (mkConnection (Some 1%nat) (Some 7%nat))
       = bool_decide (Some 7%nat <> None)
    /\ (forall p o', [connected] !! p = Some o' -> heap w' !! p = Some o')
    /\ log w' = [].
Proof.
  apply (WithTransaction_new_instance 0%nat connected (Some 7%nat)
           (mkWorld [connected] [])).
  reflexivity.
Defined.

Lemma Save_overwrites_in_place_witness :
  exists w',
    Save (stable_store []) 0%nat (Some (VPtr (user "u1" "Ann" "ann@example.com" 30))) []
      (mkWorld [connected] [])
    = (Ret (None, Some (VPtr (user "u1" "Ann" "ann@example.com" 30))), w')
    /\ log w' = [] ++ [EvSet (Firestore.mkRef "users" "u1")
                         (<["age" := VInt 30]> (<["email" := VString "ann@example.com"]>
                            (<["name" := VString "Ann"]> ∅))) false].
Proof.
  apply (Save_overwrites_in_place (stable_store []) 0%nat connected
           (mkConnection (Some 1%nat) None) 1%nat
           (Some (VPtr (user "u1" "Ann" "ann@example.com" 30))) userT "u1"
           (<["age" := VInt 30]> (<["email" := VString "ann@example.com"]>
              (<["name" := VString "Ann"]> ∅)))
           (mkWorld [connected] [])); try reflexivity.
  discriminate.
Defined.

Lemma Save_partial_updates_listed_fields_witness :
  exists updates w',
    Save (stable_store []) 0%nat (Some (VPtr (user "u1" "Ann" "ann@example.com" 30)))
      ["age"; "name"] (mkWorld [in_transaction] [])
    = (Ret (None, Some (VPtr (user "u1" "Ann" "ann@example.com" 30))), w')
    /\ log w' = [] ++ [EvUpdate (Firestore.mkRef "users" "u1") updates true]
    /\ map Firestore.UPath updates = ["age"; "name"]
    /\ Forall (fun u => Firestore.UValue u <> None
                 /\ (<["age" := VInt 30]> (<["email" := VString "ann@example.com"]>
                      (<["name" := VString "Ann"]> ∅)) : gmap string Value)
                    !! Firestore.UPath u = Firestore.UValue u) updates.
Proof.
  apply (Save_partial_updates_listed_fields (stable_store []) 0%nat in_transaction
           (mkConnection (Some 1%nat) (Some 1%nat)) 1%nat
           (Some (VPtr (user "u1" "Ann" "ann@example.com" 30))) userT "u1"
           (<["age" := VInt 30]> (<["email" := VString "ann@example.com"]>
              (<["name" := VString "Ann"]> ∅)))
           ["age"; "name"] (mkWorld [in_transaction] [])); try reflexivity;
    try discriminate.
  intros f Hf.
  repeat (apply elem_of_cons in Hf as [->|Hf]; [now eexists|]).
  now apply elem_of_nil in Hf.
Defined.

Lemma Save_loses_generated_identifier_witness :
  exists err w',
    Save (stable_store []) 0%nat (Some (user "" "Ann" "ann@example.com" 30)) []
      (mkWorld [connected] [])
    = (Ret (err, Some (user "" "Ann" "ann@example.com" 30)), w')
    /\ log w' = [] ++ [EvNewDoc "users";
                        EvSet (Firestore.mkRef "users" "generated-id")
                          (<["age" := VInt 30]> (<["email" := VString "ann@example.com"]>
                             (<["name" := VString "Ann"]> ∅))) false]
    /\ GetID (Some (user "" "Ann" "ann@example.com" 30)) = Ret "".
Proof.
  apply (Save_loses_generated_identifier (stable_store []) 0%nat connected
           (mkConnection (Some 1%nat) None) 1%nat
           (Some (user "" "Ann" "ann@example.com" 30)) userT
           (<["age" := VInt 30]> (<["email" := VString "ann@example.com"]>
              (<["name" := VString "Ann"]> ∅)))
           (mkWorld [connected] [])); try reflexivity; exact I.
Defined.

Lemma Update_by_identifier_witness :
  exists w',
    Update (stable_store three_docs) 0 0%nat
      (Some (VPtr (user "u1" "" "" 0))) set_age [[age_spec]] (mkWorld [connected] [])
    = (Ret (Finished None), w')
    /\ log w' = [] ++ [EvUpdate (Firestore.mkRef "users" "u1") set_age false].
Proof.
  apply (Update_by_identifier (stable_store three_docs) 0%nat connected
           (mkConnection (Some 1%nat) None) 1%nat
           (Some (VPtr (user "u1" "" "" 0))) userT "u1" set_age [[age_spec]]
           (mkWorld [connected] []) 0); try reflexivity.
  discriminate.
Defined.

Lemma Update_needs_identifier_or_query_witness :
  exists w',
    Update (stable_store three_docs) 5 0%nat (Some (VPtr (user "" "" "" 0))) set_age
      [[]; [age_spec]] (mkWorld [connected] [])
    = (Ret (Finished (Some "either ID or query conditions must be provided")), w')
    /\ log w' = [].
Proof.
  apply (Update_needs_identifier_or_query (stable_store three_docs) 0%nat connected
           (Some (VPtr (user "" "" "" 0))) userT set_age [[]; [age_spec]]
           (mkWorld [connected] []) 5); reflexivity.
Defined.

Lemma updateLoop_stops_on_failure_witness :
  updateLoop (one_commit_store three_docs) 1 0%nat age_query set_age
    (Some (user_doc "d2" "Bob" 40))
    (mkWorld [batch_of_two]
       [EvGetAll (page_query batch_of_two age_query None) false;
        EvCommit (batch_of set_age [user_doc "d1" "Ann" 31; user_doc "d2" "Bob" 40])])
  = (Ret (Finished (Some "batch commit failed: quota exceeded")),
     mkWorld [batch_of_two]
       ([EvGetAll (page_query batch_of_two age_query None) false;
         EvCommit (batch_of set_age [user_doc "d1" "Ann" 31; user_doc "d2" "Bob" 40])]
        ++ [EvGetAll (page_query batch_of_two age_query (Some (user_doc "d2" "Bob" 40))) false;
            EvCommit (batch_of set_age [user_doc "d3" "Cyd" 52])])).
Proof.
  apply (proj2 (updateLoop_stops_on_failure (one_commit_store three_docs) 0%nat
                  batch_of_two (mkConnection (Some 1%nat) None) age_query set_age
                  (Some (user_doc "d2" "Bob" 40))
                  (mkWorld [batch_of_two]
                     [EvGetAll (page_query batch_of_two age_query None) false;
                      EvCommit (batch_of set_age
                                  [user_doc "d1" "Ann" 31; user_doc "d2" "Bob" 40])])
                  0 eq_refl eq_refl eq_refl)
           (user_doc "d3" "Cyd" 52) [] "quota exceeded"); reflexivity.
Defined.

Lemma FindAll_rejects_destination_witness :
  FindAll (stable_store three_docs) 0%nat []
    (Some (VPtr (VSlice (TPtr userT) []))) (mkWorld [connected] [])
  = (Ret (Some "dest slice element must be a struct",
          Some (VPtr (VSlice (TPtr userT) []))), mkWorld [connected] []).
Proof.
  apply (FindAll_rejects_destination (stable_store three_docs) 0%nat []
           (Some (VPtr (VSlice (TPtr userT) []))) (TSlice (TPtr userT))
           (mkWorld [connected] []) eq_refl).
  discriminate.
Defined.

Lemma FindAll_nil_destination_after_query_witness :
  exists e,
    FindAll (stable_store three_docs) 0%nat [] (Some (VNilPtr (TSlice userT)))
      (mkWorld [connected] [])
    = (Ret (Some e, Some (VNilPtr (TSlice userT))),
       mkWorld [connected; bound connected userT]
         ([] ++ [EvGetAll (Firestore.mkQuery "users" []) false]))
    /\ (forall docs, GetAll (stable_store three_docs) []
                       (Firestore.mkQuery "users" []) false = inr docs ->
          e = "dest must be a pointer to a slice").
Proof.
  apply (FindAll_nil_destination_after_query (stable_store three_docs) 0%nat connected
           (mkConnection (Some 1%nat) None) 1%nat [] userT
           (Firestore.mkQuery "users" []) (mkWorld [connected] [])
           (mkWorld [connected; bound connected userT] [])); reflexivity.
Defined.

Lemma FindAll_returns_decoded_documents_witness :
  FindAll (stable_store [user_doc "d1" "Bob" 40]) 0%nat [age_spec]
    (Some (VPtr (VSlice userT []))) (mkWorld [in_transaction] [])
  = (Ret (None, Some (VPtr (VSlice userT ([] ++ [user "d1" "Bob" "" 40])))),
     mkWorld [in_transaction; bound in_transaction userT]
       ([] ++ [EvGetAll age_query true])).
Proof.
  apply (FindAll_returns_decoded_documents (stable_store [user_doc "d1" "Bob" 40])
           0%nat in_transaction (mkConnection (Some 1%nat) (Some 1%nat)) 1%nat
           [age_spec] userT [] [user "d1" "Bob" "" 40] [user_doc "d1" "Bob" 40]
           age_query (mkWorld [in_transaction] [])
           (mkWorld [in_transaction; bound in_transaction userT] []));
    try reflexivity.
  repeat constructor. eexists. split; reflexivity.
Defined.

Lemma FindAll_decode_failure_keeps_destination_witness :
  FindAll (picky_store three_docs) 0%nat []
    (Some (VPtr (VSlice userT [user "old" "Old" "old@example.com" 1])))
    (mkWorld [connected] [])
  = (Ret (Some ("failed to parse document: " +:+ "type mismatch"),
          Some (VPtr (VSlice userT [user "old" "Old" "old@example.com" 1]))),
     mkWorld [connected; bound connected userT]
       ([] ++ [EvGetAll (Firestore.mkQuery "users" []) false])).
Proof.
  apply (FindAll_decode_failure_keeps_destination (picky_store three_docs) 0%nat
           connected (mkConnection (Some 1%nat) None) 1%nat [] userT
           [user "old" "Old" "old@example.com" 1] [user "d1" "Ann" "" 31]
           [user_doc "d1" "Ann" 31] [user_doc "d3" "Cyd" 52] (user_doc "d2" "Bob" 40)
           "type mismatch" (Firestore.mkQuery "users" []) (mkWorld [connected] [])
           (mkWorld [connected; bound connected userT] []));
    try reflexivity.
  repeat constructor. eexists. split; reflexivity.
Defined.

Lemma FindOne_not_found_witness :
  FindOne (stable_store []) 0%nat
    [mkQuerySpec [mkWhere "age" ">" (Some (VInt 30)) None] [] 10]
    (Some (VPtr (user "" "" "" 0))) (mkWorld [connected] [])
  = (Ret (Some "no document found", Some (VPtr (user "" "" "" 0))),
     mkWorld [connected; bound connected userT]
       ([] ++ [EvGetAll (Firestore.mkQuery "users"
                           ([Firestore.OpWhere "age" ">" (Some (VInt 30));
                             Firestore.OpLimit 10] ++ [Firestore.OpLimit 1]))
                 false])).
Proof.
  apply (FindOne_not_found (stable_store []) 0%nat connected
           (mkConnection (Some 1%nat) None) 1%nat
           [mkQuerySpec [mkWhere "age" ">" (Some (VInt 30)) None] [] 10]
           (Some (VPtr (user "" "" "" 0))) userT
           (Firestore.mkQuery "users"
              [Firestore.OpWhere "age" ">" (Some (VInt 30)); Firestore.OpLimit 10])
           (mkWorld [connected] [])
           (mkWorld [connected; bound connected userT] [])); reflexivity.
Defined.

Lemma FindOne_decodes_first_document_witness :
  FindOne (stable_store three_docs) 0%nat [] (Some (VPtr (user "stale" "" "x@y" 0)))
    (mkWorld [connected] [])
  = (Ret (None, Some (VPtr (user "d1" "Ann" "x@y" 31))),
     mkWorld [connected; bound connected userT]
       ([] ++ [EvGetAll (Firestore.Limit (Firestore.mkQuery "users" []) 1) false]))
  /\ GetID (Some (VPtr (user "d1" "Ann" "x@y" 31))) = Ret "d1".
Proof.
  apply (FindOne_decodes_first_document (stable_store three_docs) 0%nat connected
           (mkConnection (Some 1%nat) None) 1%nat [] (user "stale" "" "x@y" 0) userT
           (user_doc "d1" "Ann" 31) [] "User" None
           [ mkField "ID" "-" (VString "stale");
             mkField "Name" "name" (VString "Ann");
             mkField "Email" "email" (VString "x@y");
             mkField "Age" "age" (VInt 31) ]
           (mkField "ID" "-" (VString "stale")) "stale"
           (Firestore.mkQuery "users" []) (mkWorld [connected] [])
           (mkWorld [connected; bound connected userT] [])); reflexivity.
Defined.

Lemma GetByID_empty_identifier_witness :
  exists dw',
    GetByID (stable_store []) (doc_store three_docs) 0%nat
      (Some (VPtr (user "" "Ann" "" 0))) (mkDocWorld (mkWorld [connected] []) [])
    = (Ret (Some "ID cannot be empty", Some (VPtr (user "" "Ann" "" 0))), dw')
    /\ docLog dw' = [] /\ log (world dw') = [].
Proof.
  apply (GetByID_empty_identifier (stable_store []) (doc_store three_docs) 0%nat
           connected (Some (VPtr (user "" "Ann" "" 0))) userT
           (mkDocWorld (mkWorld [connected] []) [])); reflexivity.
Defined.

Lemma GetByID_swallows_panics_witness :
  exists dw',
    GetByID (stable_store []) (doc_store three_docs) 0%nat (Some (VNilPtr userT))
      (mkDocWorld (mkWorld [connected] []) [])
    = (Ret (None, Some (VNilPtr userT)), dw')
    /\ docLog dw' = [] /\ log (world dw') = [].
Proof.
  apply (GetByID_swallows_panics (stable_store []) (doc_store three_docs) 0%nat
           connected (Some (VNilPtr userT)) userT
           (mkDocWorld (mkWorld [connected] []) [])); try reflexivity.
  left. exact I.
Defined.

Lemma GetByID_gets_document_witness :
  exists r dw',
    GetByID (stable_store []) (doc_store three_docs) 0%nat
      (Some (VPtr (user "d2" "" "" 0))) (mkDocWorld (mkWorld [in_transaction] []) [])
    = (Ret r, dw')
    /\ docLog dw' = [] ++ [EvGet (Firestore.mkRef "users" "d2") true]
    /\ log (world dw') = []
    /\ (forall e, DocGet (doc_store three_docs) [] [] (Firestore.mkRef "users" "d2") true
                  = inl e ->
          r = (Some e, Some (VPtr (user "d2" "" "" 0))))
    /\ (forall doc v', DocGet (doc_store three_docs) [] [] (Firestore.mkRef "users" "d2") true
                       = inr doc ->
          DataTo (stable_store []) doc (user "d2" "" "" 0) = inr v' ->
          r = (None, Some (VPtr v')))
    /\ (forall doc e, DocGet (doc_store three_docs) [] [] (Firestore.mkRef "users" "d2") true
                      = inr doc ->
          DataTo (stable_store []) doc (user "d2" "" "" 0) = inl e ->
          r = (Some ("failed to parse document: " +:+ e), Some (VPtr (user "d2" "" "" 0)))).
Proof.
  apply (GetByID_gets_document (stable_store []) (doc_store three_docs) 0%nat
           in_transaction (mkConnection (Some 1%nat) (Some 1%nat)) 1%nat
           (user "d2" "" "" 0) userT "d2" (mkDocWorld (mkWorld [in_transaction] []) []));
    try reflexivity.
  discriminate.
Defined.

Lemma Delete_fails_before_the_store_witness :
  Delete (doc_store three_docs) 0%nat (Some (VPtr (user "d1" "" "" 0)))
    (mkDocWorld (mkWorld [connected] []) [])
  = (Ret (Some "no model set, call db.Model(&Model{}) first"),
     mkDocWorld (mkWorld [connected] []) []).
Proof.
  apply (proj1 (Delete_fails_before_the_store (doc_store three_docs)
                  0%nat connected (Some (VPtr (user "d1" "" "" 0)))
                  (mkDocWorld (mkWorld [connected] []) []) eq_refl)).
  reflexivity.
Defined.

Lemma Delete_deletes_in_bound_collection_witness :
  Delete (doc_store three_docs) 0%nat (Some (VPtr (example "e9" "" "")))
    (mkDocWorld (mkWorld [batch_of_two] []) [])
  = (Ret None,
     mkDocWorld (mkWorld [batch_of_two] [])
       ([] ++ [EvDelete (Firestore.mkRef "users" "e9") false])).
Proof.
  apply (Delete_deletes_in_bound_collection (doc_store three_docs)
           0%nat batch_of_two (mkConnection (Some 1%nat) None) 1%nat userT
           (Some (VPtr (example "e9" "" ""))) "e9"
           (mkDocWorld (mkWorld [batch_of_two] []) [])); try reflexivity.
  - now exists "User", None,
      [ mkField "ID" "-" TString; mkField "Name" "name" TString;
        mkField "Email" "email" TString; mkField "Age" "age" TInt ].
  - discriminate.
Defined.

Lemma Update_by_query_pages_witness :
  exists evs,
    Update (stable_store three_docs) 2 0%nat (Some (VPtr (user "" "" "" 0))) set_age
      [[age_spec]] (mkWorld [connected] [])
    = (Ret (Finished None),
       mkWorld ([connected] ++ [bound connected userT]) ([] ++ evs))
    /\ List.length (commits evs) = ceil_div 3 (Z.to_nat 100)
    /\ List.concat (commits evs) = batch_of set_age three_docs
    /\ List.filter is_write evs = map EvCommit (commits evs)
    /\ Forall (fun e => is_write e = false ->
                       exists cursor,
                         e = EvGetAll
                               (page_query connected
                                  (Firestore.mkQuery (collectionOf userT)
                                     (map clause_op (flat_map spec_clauses [age_spec])))
                                  cursor) false) evs.
Proof.
  apply (Update_by_query_pages (stable_store three_docs) 0%nat connected
           (mkConnection (Some 1%nat) None) 1%nat (Some (VPtr (user "" "" "" 0)))
           userT set_age [age_spec] [] three_docs (mkWorld [connected] []) 2);
    try reflexivity.
  - discriminate.
  - repeat constructor.
  - apply (bool_decide_unpack _). vm_compute. reflexivity.
  - intros h [doc|] _; reflexivity.
  - vm_compute. lia.
Defined.
